(** * Smart Prescription Reader: the job workflow and the job-status resolver

  A shallow embedding of

  - [packages/infra/src/constructs/workflow/smartPrescriptionReaderWorkflow.ts],
    the Step Functions state machine (JSONata query language) that drives
    one job: its states, their payloads, [assign] blocks, retriers,
    catchers and wiring;
  - [resolvers/getJobStatus.js], the AppSync resolver that reads a job.

  The Lambda functions behind the tasks are outside this development: an
  execution is run against an oracle that says, for the n-th Lambda
  invocation of the execution, whether it returned (and what) or raised
  (and which error name).  A status update counts as written when the
  invocation that carries it returns. *)

From Stdlib Require Import ZArith List String Ascii Bool Arith Lia Sorted.
Import ListNotations.

Local Open Scope string_scope.
Local Open Scope list_scope.
Local Open Scope Z_scope.

(* ================================================================== *)
(** ** JSONata built-ins used by the workflow expressions *)
(* ================================================================== *)

Module Jsonata.

(** [$uppercase] on the ASCII range: [a]..[z] are moved to [A]..[Z]. *)
Definition upper_ascii (a : ascii) : ascii :=
  let n := nat_of_ascii a in
  if ((97 <=? n) && (n <=? 122))%nat then ascii_of_nat (n - 32) else a.

Fixpoint uppercase (s : string) : string :=
  match s with
  | EmptyString => EmptyString
  | String a r => String (upper_ascii a) (uppercase r)
  end.

(** [x in [a, b, ...]] on strings. *)
Definition in_array (x : string) (xs : list string) : bool :=
  existsb (String.eqb x) xs.



(** Every character, for checks that run over all of them. *)
Definition all_ascii : list ascii := map ascii_of_nat (seq 0 256).

End Jsonata.

(* ================================================================== *)
(** ** Task attempts and retriers *)
(* ================================================================== *)

Module Retry.

(** The object passed to [addRetry]; a field the call leaves out is
    [None]. Durations are in seconds. *)
Record RetryProps := {
  errors      : list string;
  maxAttempts : nat;
  backoffRate : option Z;
  interval    : option Z;
  maxDelay    : option Z
}.

(** [States.ALL] is the wildcard error name. *)
Definition matches (r : RetryProps) (e : string) : bool :=
  existsb (fun n => String.eqb n "States.ALL" || String.eqb n e) (errors r).

(** The wait declared before retry number [k] (the first retry is
    number 0): [interval * backoffRate ^ k], capped by [maxDelay].
    [None] when the retrier declares no interval, in which case the
    engine's own default applies. *)
Definition retry_delay (r : RetryProps) (k : nat) : option Z :=
  match interval r with
  | None => None
  | Some i =>
      let rate := match backoffRate r with Some b => b | None => 2 end in
      let d := i * rate ^ Z.of_nat k in
      Some (match maxDelay r with Some m => Z.min d m | None => d end)
  end.

(** A retrier together with the number of retries it has already
    granted in the current state entry. *)
Definition Armed := (RetryProps * nat)%type.

Definition arm (rs : list RetryProps) : list Armed :=
  map (fun r => (r, 0%nat)) rs.

(** Retries the retriers can still grant, all together. *)
Fixpoint remaining (rs : list Armed) : nat :=
  match rs with
  | [] => 0
  | (r, k) :: rest => (maxAttempts r - k) + remaining rest
  end.

(** The first retrier whose [errors] match handles the error.  If it
    has retries left it grants one (and reports the declared wait);
    if it is used up the error is not retried, whatever later
    retriers say. *)
Fixpoint grant (e : string) (rs : list Armed)
  : option (option Z * list Armed) :=
  match rs with
  | [] => None
  | (r, k) :: rest =>
      if matches r e then
        if (k <? maxAttempts r)%nat
        then Some (retry_delay r k, (r, S k) :: rest)
        else None
      else
        match grant e rest with
        | Some (d, rest') => Some (d, (r, k) :: rest')
        | None => None
        end
  end.

Section Attempts.

(** What one Lambda invocation reports. *)
Context {R : Type}.

Inductive Attempt := Returned (r : R) | Raised (e : string).

Inductive TaskResult := Done (r : R) | Exhausted (e : string).

Record TaskRun := {
  result   : TaskResult;
  attempts : nat;             (* Lambda invocations made *)
  waits    : list (option Z)  (* declared wait before each retry *)
}.

(** [env n] is the outcome of the [n]-th Lambda invocation of the
    execution. *)
Definition Oracle := nat -> Attempt.

(** The attempts of one state entry, starting at invocation [t].
    [budget] is the number of retries still available over all
    retriers; with none left a raised error stands. *)
Fixpoint attempt_loop (budget : nat) (env : Oracle) (rs : list Armed)
         (t : nat) : TaskRun :=
  match env t with
  | Returned r => {| result := Done r; attempts := 1; waits := [] |}
  | Raised e =>
      match budget with
      | O => {| result := Exhausted e; attempts := 1; waits := [] |}
      | S budget' =>
          match grant e rs with
          | None => {| result := Exhausted e; attempts := 1; waits := [] |}
          | Some (d, rs') =>
              let run := attempt_loop budget' env rs' (S t) in
              {| result := result run;
                 attempts := S (attempts run);
                 waits := d :: waits run |}
          end
      end
  end.

Definition run_task (env : Oracle) (rs : list RetryProps) (t : nat)
  : TaskRun :=
  attempt_loop (remaining (arm rs)) env (arm rs) t.

End Attempts.

Arguments Attempt : clear implicits.
Arguments TaskResult : clear implicits.
Arguments TaskRun : clear implicits.
Arguments Oracle : clear implicits.

End Retry.

(* ================================================================== *)
(** ** The workflow: data *)
(* ================================================================== *)

Module Workflow.

Import Retry.

(** The states of the machine, by their construct ids. *)
Inductive StateName :=
| StoreInputs | ShouldOcr | UpdateStatusOcr | OcrPrescription
| UpdateStatusProcessing | ExtractPrescription | IsPrescription
| UpdateStatusJudge | EvaluateResponse | ShouldCorrect
| UpdateStatusCorrect | CorrectResponse | UpdateStatusCompleted
| Success | CatchHandler | UpdateStatusFailed | Fail.

Definition StateName_eq_dec (a b : StateName) : {a = b} + {a <> b}.
Proof. decide equality. Defined.

Inductive JobStatus := QUEUED | PROCESSING | COMPLETED | FAILED.
Inductive JobState := TRANSCRIBE | EXTRACT | JUDGE | CORRECT.

(** One usage record, as a model Lambda returns it. *)
Record ModelUsage := {
  task                 : string;
  inputTokens          : Z;
  outputTokens         : Z;
  cacheReadInputTokens : Z
}.

(** The values the variable [$usage] takes once assigned: [null] or a
    usage record.  An unassigned variable is [None] at its use. *)
Inductive UsageValue := JNull | JUsage (u : ModelUsage).

(** [$exists(v)] *)
Definition exists_ {A} (v : option A) : bool :=
  match v with Some _ => true | None => false end.

(** [v != null]; a comparison with an unassigned variable is false. *)
Definition ne_null (v : option UsageValue) : bool :=
  match v with Some (JUsage _) => true | _ => false end.

(** The array constructor [[v]]: an unassigned [v] contributes nothing. *)
Definition array_of {A} (v : option A) : list A :=
  match v with Some x => [x] | None => [] end.

(** The fields of [$states.result.Payload] that some state reads. *)
Module Payload.
Record t := {
  transcription  : string;
  isHandwritten  : bool;
  isPrescription : bool;
  extraction     : string;
  usage          : ModelUsage;
  score          : string;
  feedback       : string
}.
End Payload.

(** The execution input, [$states.input] in [StoreInputs].  Only the
    fields that reach a branch or a status update are kept; the image,
    schema, temperature and model ids are passed to the Lambdas
    unchanged. *)
Module Input.
Record t := {
  jobId          : string;
  useTextract    : option bool;
  maxCorrections : option Z
}.
End Input.

Record SmartPrescriptionReaderWorkflowProps := {
  props_maxCorrections : Z
}.

(** The stack instantiates the workflow with [maxCorrections: 1]. *)
Definition stack_props : SmartPrescriptionReaderWorkflowProps :=
  {| props_maxCorrections := 1 |}.

(** The payload of the [UpdateJobStatus] Lambda; a key the payload
    object does not have is [None]. *)
Module Update.
Record ErrorDetail := { message : option string; code : option string }.
Record t := {
  jobId            : string;
  status           : JobStatus;
  state            : option JobState;
  error            : option ErrorDetail;
  usage            : option (list UsageValue);
  score            : option string;
  prescriptionData : option string;
  message_         : option string
}.
End Update.

(** The workflow variables. *)
Record Vars := {
  jobId           : string;
  useTextract     : bool;
  correctionCount : Z;
  maxCorrections  : Z;
  ocrText         : option string;
  isHandwritten   : bool;
  isPrescription  : bool;
  extraction      : option string;
  usage           : option UsageValue;
  score           : option string;
  feedback        : option string;
  shouldCorrect   : bool;
  errorMessage    : option string;
  errorCode       : option string
}.

(** Before [StoreInputs] nothing is assigned; the fields that are not
    options hold placeholders that [StoreInputs], [ExtractPrescription]
    and [EvaluateResponse] overwrite before any state reads them. *)
Definition unassigned : Vars :=
  {| jobId := ""; useTextract := false; correctionCount := 0;
     maxCorrections := 0; ocrText := None; isHandwritten := false;
     isPrescription := false; extraction := None; usage := None;
     score := None; feedback := None; shouldCorrect := false;
     errorMessage := None; errorCode := None |}.

(* ------------------------------------------------------------------ *)
(** *** Retriers and catchers *)

(** [addRetry({errors: ['RateLimitError'], maxAttempts: 3, backoffRate: 2,
    interval: Duration.seconds(30), maxDelay: Duration.seconds(60)})] *)
Definition rateLimitRetry : RetryProps :=
  {| errors := ["RateLimitError"]; maxAttempts := 3;
     backoffRate := Some 2; interval := Some 30; maxDelay := Some 60 |}.

(** [addRetry({errors: ['States.ALL'], maxAttempts: 3})] *)
Definition allErrorsRetry : RetryProps :=
  {| errors := ["States.ALL"]; maxAttempts := 3;
     backoffRate := None; interval := None; maxDelay := None |}.

(** The retriers of each state, in the order of the [addRetry] calls. *)
Definition retry (s : StateName) : list RetryProps :=
  match s with
  | ExtractPrescription | EvaluateResponse | CorrectResponse =>
      [rateLimitRetry; allErrorsRetry]
  | UpdateStatusFailed | UpdateStatusOcr | OcrPrescription
  | UpdateStatusProcessing | UpdateStatusJudge | UpdateStatusCorrect
  | UpdateStatusCompleted =>
      [allErrorsRetry]
  | _ => []
  end.

(** [addCatch(catchHandler, {})]: every task but [UpdateStatusFailed]. *)
Definition catch (s : StateName) : option StateName :=
  match s with
  | UpdateStatusOcr | OcrPrescription | UpdateStatusProcessing
  | ExtractPrescription | UpdateStatusJudge | EvaluateResponse
  | UpdateStatusCorrect | CorrectResponse | UpdateStatusCompleted =>
      Some CatchHandler
  | _ => None
  end.

Inductive Kind := Pass | Choice | Task | Succeed | FailState.

Definition kind (s : StateName) : Kind :=
  match s with
  | StoreInputs | CatchHandler => Pass
  | ShouldOcr | IsPrescription | ShouldCorrect => Choice
  | Success => Succeed
  | Fail => FailState
  | _ => Task
  end.


(* ------------------------------------------------------------------ *)
(** *** Payloads of the status updates *)

(** [usage] of [UpdateStatusFailed]:
    [$exists($usage) and $usage != null ? [$usage] : []] *)
Definition failed_usage (v : Vars) : list UsageValue :=
  if exists_ (usage v) && ne_null (usage v) then array_of (usage v) else [].

(** The payload a status task sends, [None] for the other states. *)
Definition payload (s : StateName) (v : Vars) : option Update.t :=
  match s with
  | UpdateStatusFailed =>
      Some {| Update.jobId := jobId v; Update.status := FAILED;
              Update.state := None;
              Update.error :=
                Some {| Update.message := errorMessage v;
                        Update.code := errorCode v |};
              Update.usage := Some (failed_usage v);
              Update.score := None; Update.prescriptionData := None;
              Update.message_ := None |}
  | UpdateStatusOcr =>
      Some {| Update.jobId := jobId v; Update.status := PROCESSING;
              Update.state := Some TRANSCRIBE; Update.error := None;
              Update.usage := None; Update.score := None;
              Update.prescriptionData := None; Update.message_ := None |}
  | UpdateStatusProcessing =>
      Some {| Update.jobId := jobId v; Update.status := PROCESSING;
              Update.state := Some EXTRACT; Update.error := None;
              Update.usage := None; Update.score := None;
              Update.prescriptionData := None; Update.message_ := None |}
  | UpdateStatusJudge =>
      Some {| Update.jobId := jobId v; Update.status := PROCESSING;
              Update.state := Some JUDGE; Update.error := None;
              Update.usage := Some (array_of (usage v));
              Update.score := None;
              Update.prescriptionData := None; Update.message_ := None |}
  | UpdateStatusCorrect =>
      Some {| Update.jobId := jobId v; Update.status := PROCESSING;
              Update.state := Some CORRECT; Update.error := None;
              Update.usage := Some (array_of (usage v));
              Update.score := score v;
              Update.prescriptionData := None; Update.message_ := None |}
  | UpdateStatusCompleted =>
      Some {| Update.jobId := jobId v; Update.status := COMPLETED;
              Update.state := None; Update.error := None;
              Update.usage := Some (array_of (usage v));
              Update.score := score v;
              Update.prescriptionData := extraction v;
              Update.message_ := feedback v |}
  | _ => None
  end.

(* ------------------------------------------------------------------ *)
(** *** The [assign] blocks *)

Section Assign.

Variable props : SmartPrescriptionReaderWorkflowProps.

(** [StoreInputs] *)
Definition store_inputs (i : Input.t) (v : Vars) : Vars :=
  {| jobId := Input.jobId i;
     useTextract :=
       match Input.useTextract i with Some b => b | None => true end;
     correctionCount := 0;
     maxCorrections :=
       match Input.maxCorrections i with
       | Some n => n
       | None => props_maxCorrections props
       end;
     ocrText := ocrText v; isHandwritten := isHandwritten v;
     isPrescription := isPrescription v; extraction := extraction v;
     usage := usage v; score := score v; feedback := feedback v;
     shouldCorrect := shouldCorrect v;
     errorMessage := errorMessage v; errorCode := errorCode v |}.

(** [CatchHandler] *)
Definition catch_handler (v : Vars) : Vars :=
  {| jobId := jobId v; useTextract := useTextract v;
     correctionCount := correctionCount v;
     maxCorrections := maxCorrections v;
     ocrText := ocrText v; isHandwritten := isHandwritten v;
     isPrescription := isPrescription v; extraction := extraction v;
     usage := usage v; score := score v; feedback := feedback v;
     shouldCorrect := shouldCorrect v;
     errorMessage := Some "Internal error";
     errorCode := Some "InternalError" |}.

(** [IsPrescription]: both expressions are [null] when [$isPrescription]
    holds, which is also what the two variables hold when they were never
    assigned. *)
Definition is_prescription_assign (v : Vars) : Vars :=
  {| jobId := jobId v; useTextract := useTextract v;
     correctionCount := correctionCount v;
     maxCorrections := maxCorrections v;
     ocrText := ocrText v; isHandwritten := isHandwritten v;
     isPrescription := isPrescription v; extraction := extraction v;
     usage := usage v; score := score v; feedback := feedback v;
     shouldCorrect := shouldCorrect v;
     errorMessage :=
       if isPrescription v then None
       else Some "The image does not contain a prescription.";
     errorCode := if isPrescription v then None else Some "InvalidImage" |}.

(** The [assign] of a Pass or Choice state. *)
Definition assign_local (i : Input.t) (s : StateName) (v : Vars) : Vars :=
  match s with
  | StoreInputs => store_inputs i v
  | CatchHandler => catch_handler v
  | IsPrescription => is_prescription_assign v
  | _ => v
  end.

(** [usage: '{% null %}'] *)
Definition clear_usage (v : Vars) : Vars :=
  {| jobId := jobId v; useTextract := useTextract v;
     correctionCount := correctionCount v;
     maxCorrections := maxCorrections v;
     ocrText := ocrText v; isHandwritten := isHandwritten v;
     isPrescription := isPrescription v; extraction := extraction v;
     usage := Some JNull; score := score v; feedback := feedback v;
     shouldCorrect := shouldCorrect v;
     errorMessage := errorMessage v; errorCode := errorCode v |}.

(** The [assign] of a task, evaluated when the task succeeds with
    result payload [p]; the expressions read the variables as they were
    when the state was entered. *)
Definition assign_result (s : StateName) (v : Vars) (p : Payload.t) : Vars :=
  match s with
  | OcrPrescription =>
      {| jobId := jobId v; useTextract := useTextract v;
         correctionCount := correctionCount v;
         maxCorrections := maxCorrections v;
         ocrText := Some (Payload.transcription p);
         isHandwritten := isHandwritten v;
         isPrescription := isPrescription v; extraction := extraction v;
         usage := usage v; score := score v; feedback := feedback v;
         shouldCorrect := shouldCorrect v;
         errorMessage := errorMessage v; errorCode := errorCode v |}
  | UpdateStatusProcessing | UpdateStatusJudge | UpdateStatusCompleted =>
      clear_usage v
  | ExtractPrescription =>
      {| jobId := jobId v; useTextract := useTextract v;
         correctionCount := correctionCount v;
         maxCorrections := maxCorrections v;
         ocrText := ocrText v;
         isHandwritten := Payload.isHandwritten p;
         isPrescription := Payload.isPrescription p;
         extraction := Some (Payload.extraction p);
         usage := Some (JUsage (Payload.usage p));
         score := score v; feedback := feedback v;
         shouldCorrect := shouldCorrect v;
         errorMessage := errorMessage v; errorCode := errorCode v |}
  | EvaluateResponse =>
      {| jobId := jobId v; useTextract := useTextract v;
         correctionCount := correctionCount v;
         maxCorrections := maxCorrections v;
         ocrText := ocrText v; isHandwritten := isHandwritten v;
         isPrescription := isPrescription v; extraction := extraction v;
         usage := Some (JUsage (Payload.usage p));
         score := Some (Jsonata.uppercase (Payload.score p));
         feedback := Some (Payload.feedback p);
         shouldCorrect :=
           Jsonata.in_array (Jsonata.uppercase (Payload.score p))
                            ["POOR"; "FAIR"]
           && (correctionCount v <? maxCorrections v);
         errorMessage := errorMessage v; errorCode := errorCode v |}
  | UpdateStatusCorrect =>
      {| jobId := jobId v; useTextract := useTextract v;
         correctionCount := correctionCount v + 1;
         maxCorrections := maxCorrections v;
         ocrText := ocrText v; isHandwritten := isHandwritten v;
         isPrescription := isPrescription v; extraction := extraction v;
         usage := Some JNull; score := score v; feedback := feedback v;
         shouldCorrect := shouldCorrect v;
         errorMessage := errorMessage v; errorCode := errorCode v |}
  | CorrectResponse =>
      {| jobId := jobId v; useTextract := useTextract v;
         correctionCount := correctionCount v;
         maxCorrections := maxCorrections v;
         ocrText := ocrText v; isHandwritten := isHandwritten v;
         isPrescription := isPrescription v;
         extraction := Some (Payload.extraction p);
         usage := Some (JUsage (Payload.usage p));
         score := score v; feedback := feedback v;
         shouldCorrect := shouldCorrect v;
         errorMessage := errorMessage v; errorCode := errorCode v |}
  | _ => v
  end.

End Assign.

(* ------------------------------------------------------------------ *)
(** *** The wiring *)

(** [.next(...)] of a Pass or Task state, and the [when]/[otherwise]
    of a Choice, decided on the variables at entry. *)
Definition next (s : StateName) (v : Vars) : StateName :=
  match s with
  | StoreInputs => ShouldOcr
  | ShouldOcr => if useTextract v then UpdateStatusOcr
                 else UpdateStatusProcessing
  | UpdateStatusOcr => OcrPrescription
  | OcrPrescription => UpdateStatusProcessing
  | UpdateStatusProcessing => ExtractPrescription
  | ExtractPrescription => IsPrescription
  | IsPrescription => if isPrescription v then UpdateStatusJudge
                      else UpdateStatusFailed
  | UpdateStatusJudge => EvaluateResponse
  | EvaluateResponse => ShouldCorrect
  | ShouldCorrect => if shouldCorrect v then UpdateStatusCorrect
                     else UpdateStatusCompleted
  | UpdateStatusCorrect => CorrectResponse
  | CorrectResponse => UpdateStatusJudge
  | UpdateStatusCompleted => Success
  | CatchHandler => UpdateStatusFailed
  | UpdateStatusFailed => Fail
  | Success => Success
  | Fail => Fail
  end.

(* ================================================================== *)
(** ** The workflow: execution *)
(* ================================================================== *)

(** Where an execution stands: at a state, or ended by an error that no
    catcher took. *)
Inductive Control :=
| At (s : StateName)
| Aborted (s : StateName) (e : string).

(** An execution in progress.  [writes], [entered] and [metered] are
    histories, most recent first: the status updates the store accepted,
    the states entered (the current one is the head), and the usage
    records the model stages returned. *)
Record Config := {
  ctl     : Control;
  vars    : Vars;
  clock   : nat;
  writes  : list Update.t;
  entered : list StateName;
  metered : list ModelUsage
}.

(** A model stage returns a usage record with its result. *)
Definition meters (s : StateName) : bool :=
  match s with
  | ExtractPrescription | EvaluateResponse | CorrectResponse => true
  | _ => false
  end.


Section Machine.

Variable props : SmartPrescriptionReaderWorkflowProps.
Variable env : Oracle Payload.t.
Variable input : Input.t.

Definition start : Config :=
  {| ctl := At StoreInputs; vars := unassigned; clock := 0%nat;
     writes := []; entered := [StoreInputs]; metered := [] |}.

(** One state of the machine.  A Pass or Choice state assigns and moves
    on.  A Task state invokes its Lambda under its retriers: when an
    attempt returns, the status update it carried (if the state is a
    status task) is in the store, the [assign] block is evaluated and
    the machine moves to [next]; when the error stands, the catcher
    takes it with the variables untouched, or the execution ends if the
    state has none. *)
Definition step (c : Config) : Config :=
  match ctl c with
  | Aborted _ _ => c
  | At s =>
      match kind s with
      | Succeed | FailState => c
      | Pass | Choice =>
          let s' := next s (vars c) in
          {| ctl := At s'; vars := assign_local props input s (vars c);
             clock := clock c; writes := writes c;
             entered := s' :: entered c; metered := metered c |}
      | Task =>
          let r := run_task env (retry s) (clock c) in
          match result r with
          | Done p =>
              let s' := next s (vars c) in
              {| ctl := At s';
                 vars := assign_result s (vars c) p;
                 clock := (clock c + attempts r)%nat;
                 writes := array_of (payload s (vars c)) ++ writes c;
                 entered := s' :: entered c;
                 metered := if meters s
                            then Payload.usage p :: metered c
                            else metered c |}
          | Exhausted e =>
              match catch s with
              | Some h =>
                  {| ctl := At h; vars := vars c;
                     clock := (clock c + attempts r)%nat;
                     writes := writes c;
                     entered := h :: entered c; metered := metered c |}
              | None =>
                  {| ctl := Aborted s e; vars := vars c;
                     clock := (clock c + attempts r)%nat;
                     writes := writes c;
                     entered := entered c; metered := metered c |}
              end
          end
      end
  end.

Definition run (n : nat) (c : Config) : Config := Nat.iter n step c.

(** Steps that are always enough to end an execution. *)
Definition enough : nat :=
  Z.to_nat
    (13 + 5 * Z.max 0 (maxCorrections (store_inputs props input unassigned))).

Definition execute : Config := run enough start.

End Machine.

(** The oldest-first views of the histories. *)
Definition write_sequence (c : Config) : list Update.t := rev (writes c).
Definition usage_log (ws : list Update.t) : list UsageValue :=
  List.concat (map (fun w => match Update.usage w with
                        | Some us => us | None => [] end) ws).
Definition invocations (s : StateName) (c : Config) : nat :=
  count_occ StateName_eq_dec (entered c) s.
Definition is_terminal (w : Update.t) : bool :=
  match Update.status w with
  | COMPLETED | FAILED => true
  | _ => false
  end.


(* ================================================================== *)
(** ** The order of the published (status, state) pairs *)
(* ================================================================== *)

Definition WriteKey := (JobStatus * option JobState)%type.

Definition key (w : Update.t) : WriteKey := (Update.status w, Update.state w).

(** The transition graph on published pairs: which pair may follow
    which ([None]: nothing published yet by the execution).  A failure
    can follow any processing pair, and can be the first write. *)
Definition edge (prev : option WriteKey) (w : WriteKey) : bool :=
  match prev, w with
  | None, (PROCESSING, Some TRANSCRIBE) => true
  | None, (PROCESSING, Some EXTRACT) => true
  | None, (FAILED, None) => true
  | Some (PROCESSING, Some TRANSCRIBE), (PROCESSING, Some EXTRACT) => true
  | Some (PROCESSING, Some EXTRACT), (PROCESSING, Some JUDGE) => true
  | Some (PROCESSING, Some JUDGE), (PROCESSING, Some CORRECT) => true
  | Some (PROCESSING, Some CORRECT), (PROCESSING, Some JUDGE) => true
  | Some (PROCESSING, Some JUDGE), (COMPLETED, None) => true
  | Some (PROCESSING, Some _), (FAILED, None) => true
  | _, _ => false
  end.

Fixpoint follows_graph (prev : option WriteKey) (ws : list WriteKey) : bool :=
  match ws with
  | [] => true
  | w :: rest => edge prev w && follows_graph (Some w) rest
  end.

(** Depth in the graph; [JUDGE] and [CORRECT] lie on the one cycle and
    share a level. *)
Definition rank (w : WriteKey) : nat :=
  match w with
  | (PROCESSING, Some TRANSCRIBE) => 1
  | (PROCESSING, Some EXTRACT) => 2
  | (PROCESSING, Some JUDGE) | (PROCESSING, Some CORRECT) => 3
  | (COMPLETED, _) | (FAILED, _) => 4
  | _ => 0
  end.

Definition terminal_key (w : WriteKey) : bool :=
  match fst w with COMPLETED | FAILED => true | _ => false end.

(** The pairs on the correction cycle, and the one the cycle is named
    after. *)
Definition in_loop (w : WriteKey) : bool :=
  match w with
  | (PROCESSING, Some JUDGE) | (PROCESSING, Some CORRECT) => true
  | _ => false
  end.

Definition is_judge (w : WriteKey) : bool :=
  match w with
  | (PROCESSING, Some JUDGE) => true
  | _ => false
  end.

Definition WriteKey_eq_dec (a b : WriteKey) : {a = b} + {a <> b}.
Proof. repeat decide equality. Defined.

Definition published (c : Config) : list WriteKey :=
  map key (write_sequence c).

Definition last_write (c : Config) : option WriteKey :=
  option_map key (hd_error (writes c)).

Definition terminal_writes (c : Config) : nat :=
  List.length (filter is_terminal (writes c)).

(* ================================================================== *)
(** ** Invariants of an execution *)
(* ================================================================== *)

(** The correction limit in force: the input's, or the deployment's. *)
Definition limit (props : SmartPrescriptionReaderWorkflowProps)
           (input : Input.t) : Z :=
  maxCorrections (store_inputs props input unassigned).

(** Counting: the counter equals the number of entries into
    [CorrectResponse], the correction branch is only taken below the
    limit, and [UpdateStatusCorrect] has been entered once per counted
    correction (plus the entry in progress or the one that failed). *)
Definition count_ok (N : Z) (c : Config) : Prop :=
  match ctl c with
  | At StoreInputs => entered c = [StoreInputs] /\ vars c = unassigned
  | _ =>
      maxCorrections (vars c) = N /\
      Z.of_nat (invocations CorrectResponse c) = correctionCount (vars c) /\
      (correctionCount (vars c) <= N \/ correctionCount (vars c) = 0) /\
      match ctl c with
      | At ShouldCorrect =>
          (shouldCorrect (vars c) = true -> correctionCount (vars c) < N) /\
          Z.of_nat (invocations UpdateStatusCorrect c) =
            correctionCount (vars c)
      | At UpdateStatusCorrect =>
          correctionCount (vars c) < N /\
          Z.of_nat (invocations UpdateStatusCorrect c) =
            correctionCount (vars c) + 1
      | At CatchHandler | At UpdateStatusFailed | At Fail | Aborted _ _ =>
          Z.of_nat (invocations UpdateStatusCorrect c) <= N \/
          invocations UpdateStatusCorrect c = 0%nat
      | _ =>
          Z.of_nat (invocations UpdateStatusCorrect c) =
            correctionCount (vars c)
      end
  end.

(** What [$usage] holds on entry to each state. *)
Definition usage_shape (s : StateName) (u : option UsageValue) : Prop :=
  match s with
  | StoreInputs | ShouldOcr | UpdateStatusOcr | OcrPrescription
  | UpdateStatusProcessing => u = None
  | ExtractPrescription | EvaluateResponse | CorrectResponse =>
      u = Some JNull
  | IsPrescription | UpdateStatusJudge | ShouldCorrect
  | UpdateStatusCorrect | UpdateStatusCompleted =>
      exists m, u = Some (JUsage m)
  | _ => True
  end.

(** Usage accounting: what is written plus what is pending is what the
    model stages returned, in order. *)
Definition usage_ok (c : Config) : Prop :=
  match ctl c with
  | At Success | At Fail =>
      usage_log (writes c) = map JUsage (metered c)
  | At s =>
      failed_usage (vars c) ++ usage_log (writes c) = map JUsage (metered c)
      /\ usage_shape s (usage (vars c))
  | Aborted _ _ =>
      failed_usage (vars c) ++ usage_log (writes c) = map JUsage (metered c)
  end.

(** The last published pair on entry to each state. *)
Definition position_ok (s : StateName) (k : option WriteKey) : Prop :=
  match s with
  | StoreInputs | ShouldOcr | UpdateStatusOcr => k = None
  | OcrPrescription => k = Some (PROCESSING, Some TRANSCRIBE)
  | UpdateStatusProcessing =>
      k = None \/ k = Some (PROCESSING, Some TRANSCRIBE)
  | ExtractPrescription | IsPrescription =>
      k = Some (PROCESSING, Some EXTRACT)
  | UpdateStatusJudge =>
      k = Some (PROCESSING, Some EXTRACT) \/
      k = Some (PROCESSING, Some CORRECT)
  | EvaluateResponse | ShouldCorrect | UpdateStatusCorrect
  | UpdateStatusCompleted => k = Some (PROCESSING, Some JUDGE)
  | CorrectResponse => k = Some (PROCESSING, Some CORRECT)
  | Success => k = Some (COMPLETED, None)
  | Fail => k = Some (FAILED, None)
  | CatchHandler | UpdateStatusFailed =>
      k = None \/ exists st, k = Some (PROCESSING, Some st)
  end.

Definition writes_ok (c : Config) : Prop :=
  follows_graph None (published c) = true /\
  match ctl c with
  | At Success | At Fail => terminal_writes c = 1%nat
  | _ => terminal_writes c = 0%nat
  end /\
  match ctl c with
  | At s => position_ok s (last_write c)
  | Aborted s _ =>
      s = UpdateStatusFailed /\
      (last_write c = None \/
       exists st, last_write c = Some (PROCESSING, Some st))
  end.

(** Up to and including [IsPrescription], no judge or correction state
    has been entered. *)
Definition before_judge (s : StateName) : bool :=
  match s with
  | StoreInputs | ShouldOcr | UpdateStatusOcr | OcrPrescription
  | UpdateStatusProcessing | ExtractPrescription | IsPrescription => true
  | _ => false
  end.

Definition judge_free (c : Config) : Prop :=
  invocations UpdateStatusJudge c = 0%nat /\
  invocations EvaluateResponse c = 0%nat /\
  invocations UpdateStatusCorrect c = 0%nat /\
  invocations CorrectResponse c = 0%nat /\
  invocations UpdateStatusCompleted c = 0%nat.

(** The failure route is entered at most once: [CatchHandler] and
    [UpdateStatusFailed] are not entered before an error stands or the
    image is rejected, and are not left for any state but [Fail]. *)
Definition route_ok (c : Config) : Prop :=
  match ctl c with
  | At CatchHandler =>
      invocations CatchHandler c = 1%nat /\
      invocations UpdateStatusFailed c = 0%nat /\
      invocations Fail c = 0%nat /\ invocations Success c = 0%nat
  | At UpdateStatusFailed | Aborted _ _ =>
      invocations UpdateStatusFailed c = 1%nat /\
      invocations Fail c = 0%nat /\ invocations Success c = 0%nat
  | At Fail =>
      invocations UpdateStatusFailed c = 1%nat /\
      invocations Fail c = 1%nat /\ invocations Success c = 0%nat
  | At Success =>
      invocations CatchHandler c = 0%nat /\
      invocations UpdateStatusFailed c = 0%nat /\
      invocations Fail c = 0%nat /\ invocations Success c = 1%nat
  | At s =>
      invocations CatchHandler c = 0%nat /\
      invocations UpdateStatusFailed c = 0%nat /\
      invocations Fail c = 0%nat /\ invocations Success c = 0%nat /\
      if before_judge s then judge_free c else True
  end.


(* ================================================================== *)
(** ** Sample executions *)
(* ================================================================== *)

Definition reply (isP : bool) (sc : string) (tokens : Z) : Payload.t :=
  {| Payload.transcription := "Rx"; Payload.isHandwritten := true;
     Payload.isPrescription := isP; Payload.extraction := "{}";
     Payload.usage := {| task := "model"; inputTokens := tokens;
                         outputTokens := 1; cacheReadInputTokens := 0 |};
     Payload.score := sc; Payload.feedback := "check the dosage" |}.

(** Every Lambda returns; the image is a prescription and the judge
    never rates it better than poor.  The token count tells the
    invocations apart. *)
Definition never_good : Oracle Payload.t :=
  fun n => Returned (reply true "Poor" (Z.of_nat n)).




(** The image is rejected and every Lambda returns. *)
Definition rejected : Oracle Payload.t :=
  fun n => Returned (reply false "" (Z.of_nat n)).




Definition job (ocr : bool) (corrections : option Z) : Input.t :=
  {| Input.jobId := "job-1"; Input.useTextract := Some ocr;
     Input.maxCorrections := corrections |}.

(* ================================================================== *)
(** ** What the stages receive and what a success returns *)
(* ================================================================== *)

(** The [ocrTranscription] field of the payloads of
    [ExtractPrescription], [EvaluateResponse] and [CorrectResponse]:
    [$ocrText ? $ocrText : null].  An unassigned variable and the empty
    string are both falsy. *)
Definition ocrTranscription (v : Vars) : option string :=
  match ocrText v with
  | Some t => if String.eqb t "" then None else Some t
  | None => None
  end.

(** The [outputs] of the [Success] state. *)
Module Output.
Record t := {
  prescriptionData : option string;
  score            : option string;
  feedback         : option string
}.
End Output.

Definition outputs (v : Vars) : Output.t :=
  {| Output.prescriptionData := extraction v;
     Output.score := score v;
     Output.feedback := feedback v |}.

(** [useTextract] as [StoreInputs] resolves it. *)
Definition ocr_requested (i : Input.t) : bool :=
  match Input.useTextract i with Some b => b | None => true end.

(* ================================================================== *)
(** ** Further invariants of an execution *)
(* ================================================================== *)

(** Every status update is addressed to the job of the input. *)
Definition job_ok (i : Input.t) (c : Config) : Prop :=
  Forall (fun w => Update.jobId w = Input.jobId i) (writes c) /\
  match ctl c with
  | At StoreInputs => True
  | _ => jobId (vars c) = Input.jobId i
  end.

(** OCR: skipped altogether when the job opts out, and otherwise done
    before any later state of the main line is entered. *)
Definition ocr_ok (i : Input.t) (c : Config) : Prop :=
  match ctl c with
  | At StoreInputs =>
      entered c = [StoreInputs] /\ writes c = [] /\ ocrText (vars c) = None
  | _ =>
      useTextract (vars c) = ocr_requested i /\
      if ocr_requested i then
        match ctl c with
        | At ShouldOcr | At UpdateStatusOcr | At OcrPrescription
        | At CatchHandler | At UpdateStatusFailed | At Fail
        | Aborted _ _ => True
        | _ => exists t, ocrText (vars c) = Some t
        end
      else
        match ctl c with
        | At UpdateStatusOcr | At OcrPrescription => False
        | _ => True
        end /\
        invocations UpdateStatusOcr c = 0%nat /\
        invocations OcrPrescription c = 0%nat /\
        ocrText (vars c) = None /\
        Forall (fun w => Update.state w <> Some TRANSCRIBE) (writes c)
  end.

(** Entries into the judge states against entries into the correction
    stage. *)
Definition judge_ok (c : Config) : Prop :=
  let J := invocations UpdateStatusJudge c in
  let E := invocations EvaluateResponse c in
  let C := invocations CorrectResponse c in
  match ctl c with
  | At UpdateStatusJudge => J = S C /\ E = C
  | At EvaluateResponse | At ShouldCorrect | At UpdateStatusCorrect
  | At UpdateStatusCompleted | At Success => J = S C /\ E = S C
  | At CorrectResponse => J = C /\ E = C
  | At CatchHandler | At UpdateStatusFailed | At Fail | Aborted _ _ =>
      (E <= J)%nat /\ (J <= S C)%nat
  | At _ => J = 0%nat /\ E = 0%nat /\ C = 0%nat
  end.

(** The score on the way to a success, and the record that reports it. *)
Definition score_ok (c : Config) : Prop :=
  match ctl c with
  | At ShouldCorrect =>
      exists s,
        score (vars c) = Some s /\
        shouldCorrect (vars c) =
          Jsonata.in_array s ["POOR"; "FAIR"]
          && (correctionCount (vars c) <? maxCorrections (vars c))
  | At UpdateStatusCompleted =>
      exists s,
        score (vars c) = Some s /\
        (Jsonata.in_array s ["POOR"; "FAIR"] = true ->
         maxCorrections (vars c) <= correctionCount (vars c))
  | At Success =>
      exists s w rest,
        score (vars c) = Some s /\
        (Jsonata.in_array s ["POOR"; "FAIR"] = true ->
         maxCorrections (vars c) <= correctionCount (vars c)) /\
        writes c = w :: rest /\
        Update.status w = COMPLETED /\
        Update.score w = Some s /\
        Update.prescriptionData w = extraction (vars c) /\
        Update.message_ w = feedback (vars c)
  | _ => True
  end.

(** What each kind of record carries as usage. *)
Definition carries (w : Update.t) : Prop :=
  match Update.status w, Update.state w with
  | PROCESSING, Some JUDGE | PROCESSING, Some CORRECT | COMPLETED, _ =>
      exists u, Update.usage w = Some [JUsage u]
  | FAILED, _ =>
      Update.usage w = Some [] \/ exists u, Update.usage w = Some [JUsage u]
  | _, _ => Update.usage w = None
  end.

Definition carried_ok (c : Config) : Prop := Forall carries (writes c).


(** How many records with a given (status, state) pair the store has
    accepted. *)
Definition records (k : WriteKey) (c : Config) : nat :=
  count_occ WriteKey_eq_dec (map key (writes c)) k.

(** One status record per entry into a stage. *)
Definition tally_ok (c : Config) : Prop :=
  records (PROCESSING, Some TRANSCRIBE) c = invocations OcrPrescription c /\
  records (PROCESSING, Some EXTRACT) c = invocations ExtractPrescription c /\
  records (PROCESSING, Some JUDGE) c = invocations EvaluateResponse c /\
  records (PROCESSING, Some CORRECT) c = invocations CorrectResponse c.

(** The scores that are written: in upper case, and [POOR] or [FAIR] on
    a [CORRECT] record. *)
Definition scored (w : Update.t) : Prop :=
  (forall s, Update.score w = Some s -> Jsonata.uppercase s = s) /\
  (Update.state w = Some CORRECT ->
   exists s, Update.score w = Some s /\
             Jsonata.in_array s ["POOR"; "FAIR"] = true).

Definition scored_ok (c : Config) : Prop :=
  Forall scored (writes c) /\
  (forall s, score (vars c) = Some s -> Jsonata.uppercase s = s) /\
  match ctl c with
  | At UpdateStatusCorrect =>
      exists s, score (vars c) = Some s /\
                Jsonata.in_array s ["POOR"; "FAIR"] = true
  | _ => True
  end.

End Workflow.

(* ================================================================== *)
(** ** The getJobStatus resolver *)
(* ================================================================== *)

Module Resolver.

(** [ctx.identity]: a Cognito user-pool identity carries [issuer]. *)
Record Identity := {
  issuer   : option string;
  username : option string
}.

(** The stored job item, as far as the resolver looks into it. *)
Record Job := {
  jobId  : string;
  owner  : option string;
  fields : list (string * string)
}.

Record DataSourceError := { message : string; type : string }.

Record Context := {
  identity : Identity;
  result   : option Job;             (* [null] when no item was found *)
  error    : option DataSourceError
}.

(** [response] returns the item or stops with [util.unauthorized()] or
    [util.error(message, type)]. *)
Inductive Response :=
| Return (j : Job)
| Unauthorized
| Error (message type : string).

(** Truthiness of an optional string: absent and empty are falsy. *)
Definition truthy (s : option string) : bool :=
  match s with
  | Some s => negb (String.eqb s "")
  | None => false
  end.

(** [a !== b] on optional strings. *)
Definition strict_neq (a b : option string) : bool :=
  match a, b with
  | Some x, Some y => negb (String.eqb x y)
  | None, None => false
  | _, _ => true
  end.

Definition response (ctx : Context) : Response :=
  if truthy (issuer (identity ctx)) && negb (truthy (username (identity ctx)))
  then Unauthorized
  else
    if truthy (issuer (identity ctx)) &&
       match result ctx with
       | Some r => strict_neq (owner r) (username (identity ctx))
       | None => false
       end
    then Unauthorized
    else
      match error ctx with
      | Some e => Error (message e) (type e)
      | None =>
          match result ctx with
          | None => Error "Job not found" "NotFound"
          | Some r => Return r
          end
      end.

(** Sample requests: a job owned by [alice], read by its owner. *)
Definition alices_job : Job :=
  {| jobId := "job-1"; owner := Some "alice";
     fields := [("status", "COMPLETED")] |}.

Definition request_by (user : string) (found : option Job) : Context :=
  {| identity := {| issuer := Some "https://cognito-idp.example/pool";
                    username := Some user |};
     result := found; error := None |}.

End Resolver.

(* ================================================================== *)
(** ** The extraction hook of the demo: the state log and polling *)
(* ================================================================== *)

Module Hook.

Import Workflow.

(** The indicator types the hook uses. *)
Inductive IndicatorType := success | error | in_progress.

(** [ModelUsage] and the fields of [PrescriptionJob] the hook reads, as
    the GraphQL types declare them. *)
Record ModelUsage := {
  cacheReadInputTokens : option Z;
  inputTokens          : Z;
  outputTokens         : option Z;
  task                 : option string
}.

Module Job.
Record t := {
  score  : option string;
  state  : option JobState;
  status : JobStatus;
  usage  : option (list (option ModelUsage))
}.
End Job.

Module Entry.
Record t := {
  state  : JobState;
  status : IndicatorType;
  score  : option string;
  usage  : option ModelUsage
}.
End Entry.

(** The string a [JobStateEnum] value is. *)
Definition state_name (s : JobState) : string :=
  match s with
  | TRANSCRIBE => "TRANSCRIBE"
  | EXTRACT => "EXTRACT"
  | JUDGE => "JUDGE"
  | CORRECT => "CORRECT"
  end.

Definition JobState_eqb (a b : JobState) : bool :=
  String.eqb (state_name a) (state_name b).

Definition is_completed (s : JobStatus) : bool :=
  match s with COMPLETED => true | _ => false end.

(** Truthiness of an optional string. *)
Definition truthy (s : option string) : bool :=
  match s with
  | Some s => negb (String.eqb s "")
  | None => false
  end.

Definition getStatus (s : JobStatus) : IndicatorType :=
  match s with
  | COMPLETED => success
  | FAILED => error
  | _ => in_progress
  end.

(** [job.usage[job.usage.length - 1]]: nothing for an empty array or a
    [null] element. *)
Definition last_usage (us : list (option ModelUsage)) : option ModelUsage :=
  last us None.

(** [state === usage?.task] *)
Definition same_task (st : JobState) (u : option ModelUsage) : bool :=
  match u with
  | Some m =>
      match task m with
      | Some t => String.eqb (state_name st) t
      | None => false
      end
  | None => false
  end.

Definition newEntry (st : JobState) (job : Job.t) : Entry.t :=
  {| Entry.state := st;
     Entry.status := getStatus (Job.status job);
     Entry.score :=
       if truthy (Job.score job) && JobState_eqb st JUDGE
          && is_completed (Job.status job)
       then Job.score job else None;
     Entry.usage :=
       match Job.usage job with
       | Some us =>
           if is_completed (Job.status job) && same_task st (last_usage us)
           then last_usage us else None
       | None => None
       end |}.

(** What becomes of the last entry when a new state is appended after
    it: marked as succeeded, and given the usage and the score the job
    reports for it if it has none yet. *)
Definition close (job : Job.t) (l : Entry.t) : Entry.t :=
  {| Entry.state := Entry.state l;
     Entry.status := success;
     Entry.score :=
       if JobState_eqb (Entry.state l) JUDGE && truthy (Job.score job)
          && negb (truthy (Entry.score l))
       then Job.score job else Entry.score l;
     Entry.usage :=
       match Job.usage job with
       | Some us =>
           if same_task (Entry.state l) (last_usage us)
              && negb (match Entry.usage l with Some _ => true
                                              | None => false end)
           then last_usage us else Entry.usage l
       | None => Entry.usage l
       end |}.

(** The updater [updateStateLog] passes to [setStateLog], as a function
    from the previous log to the next. *)
Definition updateStateLog (job : Job.t) (prev : list Entry.t)
  : list Entry.t :=
  match Job.state job with
  | None => prev
  | Some st =>
      let e := newEntry st job in
      match prev with
      | [] => [e]
      | first :: _ =>
          let lastEntry := last prev first in
          if JobState_eqb (Entry.state e) (Entry.state lastEntry)
          then removelast prev ++ [e]
          else removelast prev ++ [close job lastEntry; e]
      end
  end.



(** The log after a sequence of polls, from the empty log. *)
Definition log_of (polls : list Job.t) : list Entry.t :=
  fold_left (fun l j => updateStateLog j l) polls [].

(** Neighbouring entries are for different states. *)
Fixpoint no_repeat (l : list Entry.t) : Prop :=
  match l with
  | x :: (y :: _) as r => Entry.state x <> Entry.state y /\ no_repeat r
  | _ => True
  end.

(** Two polls of a job being judged, then one of it being corrected. *)
Definition judging : Job.t :=
  {| Job.score := None; Job.state := Some JUDGE; Job.status := PROCESSING;
     Job.usage := None |}.

Definition correcting : Job.t :=
  {| Job.score := Some "POOR"; Job.state := Some CORRECT;
     Job.status := PROCESSING;
     Job.usage := Some [Some {| cacheReadInputTokens := None;
                                inputTokens := 10; outputTokens := Some 2;
                                task := Some "JUDGE" |}] |}.

End Hook.

(* ================================================================== *)
(** ** Flash messages of the demo *)
(* ================================================================== *)

Module Flash.






End Flash.

Import Retry Workflow.

(* ================================================================== *)
(** ** Facts about the JSONata built-ins *)
(* ================================================================== *)

Lemma in_all_ascii a : In a Jsonata.all_ascii.
Proof.
  rewrite <- (ascii_nat_embedding a). apply in_map. apply in_seq.
  pose proof (nat_ascii_bounded a). lia.
Qed.





(* ================================================================== *)
(** ** Facts about retriers *)
(* ================================================================== *)

Section RetryFacts.

Context {R : Type}.
Implicit Types (rs : list Armed) (env : Oracle R).

Lemma grant_remaining e rs d rs' :
  grant e rs = Some (d, rs') -> remaining rs = S (remaining rs').
Proof.
  revert d rs'; induction rs as [|[r k] rest IH]; intros d rs'; simpl.
  - discriminate.
  - destruct (matches r e).
    + destruct (k <? maxAttempts r)%nat eqn:Hk; [|discriminate].
      apply Nat.ltb_lt in Hk. intros [= <- <-]. simpl. lia.
    + destruct (grant e rest) as [[d0 rest']|] eqn:Hg; [|discriminate].
      intros [= <- <-]. simpl. rewrite (IH _ _ eq_refl). lia.
Qed.

Lemma grant_spent e rs : remaining rs = 0%nat -> grant e rs = None.
Proof.
  intros H. destruct (grant e rs) as [[d rs']|] eqn:Hg; [|reflexivity].
  apply grant_remaining in Hg. lia.
Qed.

(** The budget given to [attempt_loop] is only a bound: any budget that
    covers what the retriers can still grant gives the same run. *)
Lemma attempt_loop_budget b env rs t :
  (remaining rs <= b)%nat ->
  attempt_loop b env rs t = attempt_loop (remaining rs) env rs t.
Proof.
  revert rs t; induction b as [|b IH]; intros rs t Hb.
  - replace (remaining rs) with 0%nat by lia. reflexivity.
  - simpl. destruct (env t) as [r|e] eqn:He.
    + destruct (remaining rs); simpl; rewrite He; reflexivity.
    + destruct (grant e rs) as [[d rs']|] eqn:Hg.
      * pose proof (grant_remaining _ _ _ _ Hg) as Hr.
        rewrite Hr. simpl. rewrite He, Hg.
        rewrite IH by lia. reflexivity.
      * destruct (remaining rs); simpl; rewrite He; [|rewrite Hg]; reflexivity.
Qed.

Lemma attempt_loop_attempts b env rs t :
  (1 <= attempts (attempt_loop b env rs t) <= S (remaining rs))%nat /\
  List.length (waits (attempt_loop b env rs t)) =
    (attempts (attempt_loop b env rs t) - 1)%nat.
Proof.
  revert rs t; induction b as [|b IH]; intros rs t; simpl.
  - destruct (env t); simpl; lia.
  - destruct (env t) as [r|e]; simpl; [lia|].
    destruct (grant e rs) as [[d rs']|] eqn:Hg; simpl; [|lia].
    apply grant_remaining in Hg. specialize (IH rs' (S t)). lia.
Qed.

(** When the error stands, the last attempt raised it. *)
Lemma attempt_loop_exhausted b env rs t e :
  result (attempt_loop b env rs t) = Exhausted e ->
  env (t + attempts (attempt_loop b env rs t) - 1)%nat = Raised e.
Proof.
  revert rs t; induction b as [|b IH]; intros rs t; simpl.
  - destruct (env t) eqn:He; simpl; [discriminate|].
    intros [= <-]. replace (t + 1 - 1)%nat with t by lia. exact He.
  - destruct (env t) eqn:He; simpl; [discriminate|].
    destruct (grant e0 rs) as [[d rs']|] eqn:Hg; simpl.
    + intros H. apply IH in H.
      pose proof (attempt_loop_attempts b env rs' (S t)) as [[? ?] _].
      replace (t + S (attempts (attempt_loop b env rs' (S t))) - 1)%nat
        with (S t + attempts (attempt_loop b env rs' (S t)) - 1)%nat by lia.
      exact H.
    + intros [= <-]. replace (t + 1 - 1)%nat with t by lia. exact He.
Qed.



End RetryFacts.

(* ================================================================== *)
(** ** Facts about the order of published pairs *)
(* ================================================================== *)

Lemma last_cons_default {A} (x : A) l d d' :
  last (x :: l) d = last (x :: l) d'.
Proof.
  revert x; induction l as [|y l IH]; intros x; [reflexivity|].
  change (last (y :: l) d = last (y :: l) d'). apply IH.
Qed.

Lemma follows_graph_snoc p l w :
  follows_graph p (l ++ [w]) =
  follows_graph p l && edge (last (map Some l) p) w.
Proof.
  revert p; induction l as [|x l IH]; intros p.
  - simpl. now rewrite andb_true_r.
  - change (edge p x && follows_graph (Some x) (l ++ [w]) =
            edge p x && follows_graph (Some x) l &&
            edge (last (Some x :: map Some l) p) w).
    rewrite IH, andb_assoc. f_equal. f_equal.
    destruct l as [|y l]; [reflexivity|].
    change (last (map Some (y :: l)) (Some x) = last (map Some (y :: l)) p).
    simpl map. apply last_cons_default.
Qed.

Lemma last_published ws :
  last (map Some (map key (rev ws))) None = option_map key (hd_error ws).
Proof.
  destruct ws as [|x r]; simpl; [reflexivity|].
  rewrite !map_app. simpl. now rewrite last_last.
Qed.

Lemma published_push w ws :
  follows_graph None (map key (rev ws ++ [w])) =
  follows_graph None (map key (rev ws)) &&
  edge (option_map key (hd_error ws)) (key w).
Proof.
  rewrite map_app. change (map key [w]) with [key w].
  now rewrite follows_graph_snoc, last_published.
Qed.

Lemma edge_rank a b :
  edge (Some a) b = true ->
  (rank a <= rank b)%nat /\ (in_loop a = false -> (rank a < rank b)%nat).
Proof.
  destruct a as [[] [[]|]], b as [[] [[]|]]; simpl;
    intros H; try discriminate H; split; intros; try lia; discriminate.
Qed.

Lemma after_ranks a l :
  follows_graph (Some a) l = true ->
  Forall (fun b => (rank a <= rank b)%nat /\
                   (in_loop a = false -> (rank a < rank b)%nat)) l.
Proof.
  revert a; induction l as [|y r IH]; intros a H; [constructor|].
  simpl in H. apply andb_prop in H as [He Hr].
  apply edge_rank in He. constructor; [exact He|].
  eapply Forall_impl; [|exact (IH y Hr)].
  intros b [Hb _]. split; [lia|]. intros Ha. destruct He as [_ He].
  specialize (He Ha). lia.
Qed.

Lemma graph_sorted p l :
  follows_graph p l = true ->
  StronglySorted (fun a b => (rank a <= rank b)%nat) l.
Proof.
  revert p; induction l as [|x r IH]; intros p H; [constructor|].
  simpl in H. apply andb_prop in H as [_ Hr]. constructor.
  - exact (IH _ Hr).
  - eapply Forall_impl; [|exact (after_ranks x r Hr)]. now intros b [Hb _].
Qed.

Lemma graph_nodup p l :
  follows_graph p l = true ->
  NoDup (filter (fun k => negb (in_loop k)) l).
Proof.
  revert p; induction l as [|x r IH]; intros p H; [constructor|].
  simpl in H. apply andb_prop in H as [_ Hr]. simpl.
  destruct (in_loop x) eqn:Hx; simpl; [exact (IH _ Hr)|].
  constructor; [|exact (IH _ Hr)].
  intros Hin. apply filter_In in Hin as [Hin _].
  pose proof (after_ranks x r Hr) as Hall.
  rewrite Forall_forall in Hall. destruct (Hall x Hin) as [_ Hlt].
  specialize (Hlt Hx). lia.
Qed.

Lemma graph_terminal_last p pre w post :
  follows_graph p (pre ++ w :: post) = true ->
  terminal_key w = true -> post = [].
Proof.
  revert p; induction pre as [|x pre IH]; intros p H Hw; simpl in H;
    apply andb_prop in H as [_ H].
  - destruct post as [|y post]; [reflexivity|].
    simpl in H. apply andb_prop in H as [H _].
    destruct w as [[] [[]|]]; simpl in *; discriminate.
  - exact (IH _ H Hw).
Qed.

(* ================================================================== *)
(** ** Facts about executions *)
(* ================================================================== *)

Section MachineFacts.

Variable props : SmartPrescriptionReaderWorkflowProps.
Variable env : Oracle Payload.t.
Variable input : Input.t.

Local Abbreviation step := (step props env input).
Local Abbreviation run := (run props env input).

Lemma run_S n c : run (S n) c = step (run n c).
Proof. reflexivity. Qed.





(** Case analysis on one step: the state, then the outcome of its task. *)
Ltac at_state c :=
  destruct c as [k v t ws es ms]; unfold Workflow.step; simpl ctl in *;
  destruct k as [[]|] ; simpl in *.

Ltac outcome :=
  match goal with
  | |- context [result (run_task ?e ?r ?t)] =>
      destruct (result (run_task e r t)); simpl in *
  end.

Ltac branch :=
  match goal with
  | |- context [if useTextract ?v then _ else _] =>
      destruct (useTextract v) eqn:?; simpl in *
  | |- context [if isPrescription ?v then _ else _] =>
      destruct (isPrescription v) eqn:?; simpl in *
  | |- context [if shouldCorrect ?v then _ else _] =>
      destruct (shouldCorrect v) eqn:?; simpl in *
  end.

Lemma count_ok_step c :
  count_ok (limit props input) c -> count_ok (limit props input) (step c).
Proof.
  unfold count_ok, invocations.
  at_state c; intros H; try outcome; try branch; simpl in *;
    repeat match goal with
           | H : _ /\ _ |- _ => destruct H
           end; subst; simpl in *;
    repeat split; try reflexivity; try tauto; try lia;
    try (intros Hb; apply andb_prop in Hb as [_ Hb]; apply Z.ltb_lt in Hb);
    lia.
Qed.

Lemma usage_ok_step c : usage_ok c -> usage_ok (step c).
Proof.
  unfold usage_ok, usage_shape, failed_usage, usage_log.
  at_state c; intros H; try outcome; try branch; simpl in *;
    repeat match goal with
           | H : _ /\ _ |- _ => destruct H
           | H : exists _, _ |- _ => destruct H
           end; subst; simpl in *;
    repeat match goal with
           | H : usage ?v = _ |- _ => rewrite H in *; simpl in *
           end;
    repeat split; eauto; try congruence.
Qed.

Lemma writes_ok_step c : writes_ok c -> writes_ok (step c).
Proof.
  unfold writes_ok, published, write_sequence, last_write, position_ok,
    terminal_writes.
  at_state c; intros (Hg & Ht & Hp); try outcome; try branch; simpl writes;
    rewrite ?published_push, ?Hg;
    repeat match goal with
           | H : _ \/ _ |- _ => destruct H
           | H : exists _, _ |- _ => destruct H
           end;
    repeat match goal with
           | H : option_map key (hd_error ?ws) = _ |- _ =>
               rewrite H in *; clear H
           end;
    simpl; repeat split; eauto;
    try match goal with x : JobState |- _ => now destruct x end;
    tauto.
Qed.

Lemma route_ok_step c : route_ok c -> route_ok (step c).
Proof.
  unfold route_ok, judge_free, invocations.
  at_state c; intros H; try outcome; try branch; simpl in *;
    repeat match goal with
           | H : _ /\ _ |- _ => destruct H
           end; repeat split; auto; lia.
Qed.

(** Every configuration of an execution satisfies the invariants. *)
Lemma reachable_ok n :
  let c := run n (start) in
  count_ok (limit props input) c /\ usage_ok c /\ writes_ok c /\ route_ok c.
Proof.
  induction n as [|n IH].
  - cbv. tauto.
  - destruct IH as (H1 & H2 & H3 & H4). rewrite run_S.
    split; [|split; [|split]];
      [apply count_ok_step | apply usage_ok_step
       | apply writes_ok_step | apply route_ok_step]; assumption.
Qed.

(** *** Termination *)







(** *** The failure route *)


End MachineFacts.

(* ================================================================== *)
(** ** The bounded correction loop *)
(* ================================================================== *)

(** C1. In an execution whose correction limit [N] is not negative, at
    every point the correction stage ([CorrectResponse]) has been
    entered at most [N] times, as has the status update that precedes
    it, and [$correctionCount] does not exceed [$maxCorrections]; with
    [N = 0] neither correction state is ever entered, whatever the
    judge answers. *)
Theorem bounded_corrections props env input n :
  0 <= limit props input ->
  let c := run props env input n start in
  Z.of_nat (invocations CorrectResponse c) <= limit props input /\
  Z.of_nat (invocations UpdateStatusCorrect c) <= limit props input /\
  correctionCount (vars c) <= maxCorrections (vars c) /\
  (limit props input = 0 ->
   invocations UpdateStatusCorrect c = 0%nat /\
   invocations CorrectResponse c = 0%nat).
Proof.
  intros HN c.
  destruct (reachable_ok props env input n) as (Hc & _). fold c in Hc.
  unfold count_ok in Hc.
  assert (Hstart : ctl c = At StoreInputs ->
                   invocations CorrectResponse c = 0%nat /\
                   invocations UpdateStatusCorrect c = 0%nat /\
                   correctionCount (vars c) = 0 /\
                   maxCorrections (vars c) = 0).
  { intros E. rewrite E in Hc. destruct Hc as [He Hv].
    unfold invocations. rewrite He, Hv. now cbv. }
  destruct (ctl c) as [[]|];
    try (destruct (Hstart eq_refl) as (? & ? & ? & ?); lia);
    destruct Hc as (Hm & Hk & Hle & Hu); lia.
Qed.

Lemma bounded_corrections_witness :
  0 <= limit stack_props (job true None) /\
  let c := run stack_props never_good (job true None) 40 start in
  Z.of_nat (invocations CorrectResponse c) <= limit stack_props (job true None) /\
  Z.of_nat (invocations UpdateStatusCorrect c) <= limit stack_props (job true None) /\
  correctionCount (vars c) <= maxCorrections (vars c) /\
  (limit stack_props (job true None) = 0 ->
   invocations UpdateStatusCorrect c = 0%nat /\
   invocations CorrectResponse c = 0%nat).
Proof.
  split; [now vm_compute|].
  exact (bounded_corrections stack_props never_good (job true None) 40
           ltac:(now vm_compute)).
Defined.

(* ================================================================== *)
(** ** Terminal writes *)
(* ================================================================== *)





(* ================================================================== *)
(** ** The order of the published pairs *)
(* ================================================================== *)

(** C5, as the code has it. At every point of an execution the
    (status, state) pairs published so far follow the edges of the
    transition graph, so they never step back to a lower level of it;
    nothing is published after a terminal pair; and no pair is
    published twice except the two on the correction cycle, [JUDGE] and
    [CORRECT]. *)
Theorem published_order props env input n :
  let ws := published (run props env input n start) in
  follows_graph None ws = true /\
  StronglySorted (fun a b => (rank a <= rank b)%nat) ws /\
  (forall pre w post,
     ws = pre ++ w :: post -> terminal_key w = true -> post = []) /\
  NoDup (filter (fun k => negb (in_loop k)) ws).
Proof.
  intros ws.
  destruct (reachable_ok props env input n) as (_ & _ & (Hg & _) & _).
  fold ws in Hg. split; [exact Hg|]. split; [|split].
  - exact (graph_sorted _ _ Hg).
  - intros pre w post E. rewrite E in Hg. exact (graph_terminal_last _ _ _ _ Hg).
  - exact (graph_nodup _ _ Hg).
Qed.

(** C5 as stated fails: with two corrections allowed and a judge that
    is never satisfied, [CORRECT] is published twice. *)
Lemma correct_is_published_twice :
  let ws := published (execute stack_props never_good (job false (Some 2))) in
  ws = [(PROCESSING, Some EXTRACT); (PROCESSING, Some JUDGE);
        (PROCESSING, Some CORRECT); (PROCESSING, Some JUDGE);
        (PROCESSING, Some CORRECT); (PROCESSING, Some JUDGE);
        (COMPLETED, None)] /\
  ~ NoDup (filter (fun k => negb (is_judge k)) ws).
Proof.
  vm_compute. split; [reflexivity|]. intros H.
  inversion H as [|x l Hx Hl]; subst. inversion Hl as [|y l' Hy _]; subst.
  apply Hy. simpl. auto.
Qed.

(* ================================================================== *)
(** ** Usage accounting *)
(* ================================================================== *)




(* ================================================================== *)
(** ** Rejected images and failed stages *)
(* ================================================================== *)





(* ================================================================== *)
(** ** The correction decision *)
(* ================================================================== *)



(* ================================================================== *)
(** ** The failure write and pending usage *)
(* ================================================================== *)

(** C10. The update [UpdateStatusFailed] sends has status [FAILED] and
    carries the pending usage: the one-element list of [$usage] when
    the variable holds a record, the empty list when it is [null] or
    was never assigned. When the update is accepted the machine is in
    [Fail] and every usage record the model stages returned is in the
    store. *)
Theorem failed_write_carries_pending_usage props env input k :
  let c := run props env input k start in
  ctl c = At UpdateStatusFailed ->
  exists w,
    payload UpdateStatusFailed (vars c) = Some w /\
    Update.status w = FAILED /\
    Update.usage w =
      Some (match usage (vars c) with
            | Some (JUsage u) => [JUsage u]
            | _ => []
            end) /\
    forall q,
      result (run_task env (retry UpdateStatusFailed) (clock c)) = Done q ->
      let f := step props env input c in
      ctl f = At Fail /\ writes f = w :: writes c /\
      usage_log (writes f) = map JUsage (metered f).
Proof.
  intros c Hs. eexists. split; [reflexivity|]. split; [reflexivity|]. split.
  - cbn. unfold failed_usage. now destruct (usage (vars c)) as [[]|].
  - intros q Hq f.
    destruct (reachable_ok props env input (S k)) as (_ & Hu & _).
    change (run props env input (S k) start) with f in Hu.
    clearbody c.
    assert (E : ctl f = At Fail /\
                writes f = array_of (payload UpdateStatusFailed (vars c))
                           ++ writes c).
    { unfold f, step. rewrite Hs. cbn [kind]. rewrite Hq. now cbn. }
    destruct E as [E1 E2]. split; [exact E1|]. split; [exact E2|].
    unfold usage_ok in Hu. now rewrite E1 in Hu.
Qed.

Lemma failed_write_carries_pending_usage_witness :
  let c := run stack_props rejected (job false None) 5 start in
  ctl c = At UpdateStatusFailed /\
  exists w,
    payload UpdateStatusFailed (vars c) = Some w /\
    Update.usage w = Some [JUsage (Payload.usage (reply false "" 1))].
Proof.
  intros c.
  assert (Hs : ctl c = At UpdateStatusFailed) by now vm_compute.
  split; [exact Hs|].
  destruct (failed_write_carries_pending_usage
              stack_props rejected (job false None) 5 Hs)
    as (w & Hw & _ & Hu & _).
  exists w. split; [exact Hw|]. rewrite Hu. now vm_compute.
Defined.

(* ================================================================== *)
(** ** The retry policies of the stages *)
(* ================================================================== *)









(* ================================================================== *)
(** ** The getJobStatus resolver *)
(* ================================================================== *)

(** C9. For a caller authenticated through a Cognito user pool (the
    identity carries an issuer), the resolver returns a job record only
    if the record's owner equals the caller's user name, and answers
    unauthorized whenever the stored record's owner differs from it.
    When the lookup finds no record, the caller (with a user name, or
    not from a user pool) gets the error [NotFound]; in no case is an
    absent record returned as a result. *)
Theorem get_job_status_access (ctx : Resolver.Context) :
  let id := Resolver.identity ctx in
  (Resolver.truthy (Resolver.issuer id) = true ->
   (forall j, Resolver.response ctx = Resolver.Return j ->
      Resolver.result ctx = Some j /\
      Resolver.owner j = Resolver.username id) /\
   (forall j, Resolver.result ctx = Some j ->
      Resolver.owner j <> Resolver.username id ->
      Resolver.response ctx = Resolver.Unauthorized)) /\
  (Resolver.result ctx = None -> Resolver.error ctx = None ->
   Resolver.truthy (Resolver.issuer id) = false \/
   Resolver.truthy (Resolver.username id) = true ->
   Resolver.response ctx = Resolver.Error "Job not found" "NotFound") /\
  (Resolver.result ctx = None ->
   forall j, Resolver.response ctx <> Resolver.Return j).
Proof.
  intros id. unfold Resolver.response. fold id.
  split; [|split].
  - intros Hi. rewrite Hi. cbn [andb]. split.
    + intros j.
      destruct (Resolver.truthy (Resolver.username id)); cbn [negb];
        [|discriminate].
      destruct (Resolver.result ctx) as [r|].
      * destruct (Resolver.strict_neq _ _) eqn:Hn; [discriminate|].
        destruct (Resolver.error ctx); [discriminate|].
        intros [= ->]. split; [reflexivity|].
        unfold Resolver.strict_neq in Hn.
        destruct (Resolver.owner j) as [x|], (Resolver.username id) as [y|];
          try discriminate; [|reflexivity].
        apply negb_false_iff, String.eqb_eq in Hn. now subst.
      * destruct (Resolver.error ctx); discriminate.
    + intros j Hj Hne. rewrite Hj.
      destruct (Resolver.truthy (Resolver.username id)); cbn [negb];
        [|reflexivity].
      assert (Hn : Resolver.strict_neq (Resolver.owner j)
                     (Resolver.username id) = true).
      { unfold Resolver.strict_neq.
        destruct (Resolver.owner j) as [x|], (Resolver.username id) as [y|];
          try reflexivity; [|congruence].
        apply negb_true_iff, String.eqb_neq. congruence. }
      now rewrite Hn.
  - intros Hr He [Hi|Hu]; rewrite Hr, He.
    + now rewrite Hi.
    + rewrite Hu. cbn [negb]. now rewrite !andb_false_r.
  - intros Hr j. rewrite Hr.
    destruct (_ && _); [discriminate|]. rewrite andb_false_r.
    destruct (Resolver.error ctx); discriminate.
Qed.

Lemma get_job_status_access_witness :
  Resolver.response (Resolver.request_by "alice" (Some Resolver.alices_job))
    = Resolver.Return Resolver.alices_job /\
  Resolver.response (Resolver.request_by "bob" (Some Resolver.alices_job))
    = Resolver.Unauthorized /\
  Resolver.response (Resolver.request_by "bob" None)
    = Resolver.Error "Job not found" "NotFound".
Proof.
  split; [reflexivity|]. split.
  - apply (proj2 (proj1 (get_job_status_access
                    (Resolver.request_by "bob" (Some Resolver.alices_job)))
             eq_refl) Resolver.alices_job eq_refl).
    discriminate.
  - apply (proj1 (proj2 (get_job_status_access
                           (Resolver.request_by "bob" None)))
             eq_refl eq_refl).
    right. reflexivity.
Defined.

(* ================================================================== *)
(** ** More about executions *)
(* ================================================================== *)

Section MoreMachineFacts.

Variable props : SmartPrescriptionReaderWorkflowProps.
Variable env : Oracle Payload.t.
Variable input : Input.t.

Local Abbreviation step := (step props env input).
Local Abbreviation run := (run props env input).

Ltac by_state c :=
  destruct c as [k v t ws es ms]; unfold Workflow.step; simpl ctl in *;
  destruct k as [[]|] ; simpl in *.

Ltac by_outcome :=
  match goal with
  | |- context [result (run_task ?e ?r ?t)] =>
      destruct (result (run_task e r t)); simpl in *
  end.

Ltac by_branch :=
  match goal with
  | |- context [if useTextract ?v then _ else _] =>
      destruct (useTextract v) eqn:?; simpl in *
  | |- context [if isPrescription ?v then _ else _] =>
      destruct (isPrescription v) eqn:?; simpl in *
  | |- context [if shouldCorrect ?v then _ else _] =>
      destruct (shouldCorrect v) eqn:?; simpl in *
  end.

Ltac unpack :=
  repeat match goal with
         | H : _ /\ _ |- _ => destruct H
         | H : exists _, _ |- _ => destruct H
         end.

Lemma job_ok_step c : job_ok input c -> job_ok input (step c).
Proof.
  unfold job_ok.
  by_state c; intros [Hw Hj]; try by_outcome; try by_branch;
    split; auto; constructor; auto.
Qed.

Lemma ocr_ok_step c : ocr_ok input c -> ocr_ok input (step c).
Proof.
  unfold ocr_ok, invocations, ocr_requested.
  by_state c; intros H; try by_outcome; try by_branch;
    destruct (Input.useTextract input) as [[]|]; simpl in *;
    unpack; subst; simpl in *;
    repeat split; eauto; try congruence; try contradiction;
    try (constructor; simpl; auto; congruence).
Qed.

Lemma judge_ok_step c : judge_ok c -> judge_ok (step c).
Proof.
  unfold judge_ok, invocations.
  by_state c; intros H; try by_outcome; try by_branch; simpl in *;
    unpack; repeat split; lia.
Qed.

Lemma score_ok_step c : score_ok c -> score_ok (step c).
Proof.
  unfold score_ok.
  by_state c; intros H; try by_outcome; try by_branch; simpl in *;
    unpack; auto.
  - eexists. split; reflexivity.
  - match goal with
    | Hs : score v = Some ?s |- _ => exists s; split; [exact Hs|]
    end.
    intros Hin.
    match goal with
    | He : false = _ && _ |- _ =>
        rewrite Hin in He; cbn [andb] in He;
        symmetry in He; apply Z.ltb_ge in He; exact He
    end.
  - match goal with
    | Hs : score v = Some ?s |- _ => exists s
    end.
    eexists. eexists. repeat split; eauto.
  - match goal with
    | Hs : score v = Some ?s |- _ => exists s
    end.
    eexists. eexists. repeat split; eauto.
Qed.

Lemma carried_ok_step c : usage_ok c -> carried_ok c -> carried_ok (step c).
Proof.
  unfold usage_ok, carried_ok, usage_shape.
  by_state c; intros Hu H; try by_outcome; try by_branch; simpl in *;
    unpack; auto; constructor; auto; unfold carries; simpl; eauto;
    try match goal with
        | Hs : usage _ = _ |- _ => rewrite Hs; simpl; eauto
        end.
  unfold failed_usage.
  match goal with
  | |- context [usage ?v] => destruct (usage v) as [[]|]; simpl; eauto
  end.
Qed.

Lemma reachable_more n :
  let c := run n start in
  job_ok input c /\ ocr_ok input c /\ judge_ok c /\ score_ok c /\
  carried_ok c.
Proof.
  induction n as [|n IH].
  - cbv. repeat split; auto.
  - destruct IH as (H1 & H2 & H3 & H4 & H5). rewrite run_S.
    destruct (reachable_ok props env input n) as (_ & Hu & _).
    split; [|split; [|split; [|split]]];
      [apply job_ok_step | apply ocr_ok_step | apply judge_ok_step
       | apply score_ok_step | apply carried_ok_step]; assumption.
Qed.



End MoreMachineFacts.



(** X2. A stage is entered only with its own status as the last record
    accepted by the store: [TRANSCRIBE] for OCR, [EXTRACT] for the
    extraction, [JUDGE] for the evaluation, [CORRECT] for the
    correction; and [Success] and [Fail] are entered only with the
    [COMPLETED] and the [FAILED] record written. *)
Theorem status_published_before_stage props env input n :
  let c := run props env input n start in
  match ctl c with
  | At OcrPrescription => last_write c = Some (PROCESSING, Some TRANSCRIBE)
  | At ExtractPrescription => last_write c = Some (PROCESSING, Some EXTRACT)
  | At EvaluateResponse => last_write c = Some (PROCESSING, Some JUDGE)
  | At CorrectResponse => last_write c = Some (PROCESSING, Some CORRECT)
  | At Success => last_write c = Some (COMPLETED, None)
  | At Fail => last_write c = Some (FAILED, None)
  | _ => True
  end.
Proof.
  intros c.
  destruct (reachable_ok props env input n) as (_ & _ & (_ & _ & Hp) & _).
  fold c in Hp. destruct (ctl c) as [[]|]; auto.
Qed.

(** X3. Every status update an execution gets accepted is addressed to
    the job id of its input. *)
Theorem updates_carry_job_id props env input n :
  Forall (fun w => Update.jobId w = Input.jobId input)
         (writes (run props env input n start)).
Proof.
  destruct (reachable_more props env input n) as ((H & _) & _). exact H.
Qed.

(** X4. A job that opts out of OCR ([useTextract = false]) never enters
    the OCR status update or the OCR stage, never publishes
    [TRANSCRIBE], and every model stage is sent a [null]
    transcription. *)
Theorem ocr_opt_out props env input n :
  Input.useTextract input = Some false ->
  let c := run props env input n start in
  invocations UpdateStatusOcr c = 0%nat /\
  invocations OcrPrescription c = 0%nat /\
  Forall (fun w => Update.state w <> Some TRANSCRIBE) (writes c) /\
  ocrTranscription (vars c) = None.
Proof.
  intros Hi c.
  destruct (reachable_more props env input n) as (_ & Ho & _).
  fold c in Ho. unfold ocr_ok, ocr_requested in Ho. rewrite Hi in Ho.
  unfold ocrTranscription, invocations in *.
  destruct (ctl c) as [[]|];
    try (destruct Ho as (_ & _ & H1 & H2 & H3 & H4); rewrite H3; now auto).
  destruct Ho as (H1 & H2 & H3). rewrite H1, H2, H3. now cbn.
Qed.

Lemma ocr_opt_out_witness :
  Input.useTextract (job false None) = Some false /\
  invocations OcrPrescription
    (run stack_props never_good (job false None) 18 start) = 0%nat.
Proof.
  split; [reflexivity|].
  exact (proj1 (proj2 (ocr_opt_out stack_props never_good (job false None)
                         18 eq_refl))).
Defined.

(** X5. Unless the job opts out, OCR comes first: whenever a model stage
    is entered the transcription has been returned and assigned, and
    the stage is sent that text, or [null] when the text is empty. So a
    failed OCR fails the job; it is never skipped over. *)
Theorem ocr_before_model_stages props env input n s :
  Input.useTextract input <> Some false ->
  let c := run props env input n start in
  ctl c = At s -> meters s = true ->
  exists t,
    ocrText (vars c) = Some t /\
    ocrTranscription (vars c) = if String.eqb t "" then None else Some t.
Proof.
  intros Hi c Hs Hm.
  destruct (reachable_more props env input n) as (_ & Ho & _).
  fold c in Ho. unfold ocr_ok in Ho. rewrite Hs in Ho.
  assert (Hr : ocr_requested input = true).
  { unfold ocr_requested. destruct (Input.useTextract input) as [[]|];
      congruence. }
  rewrite Hr in Ho. unfold ocrTranscription.
  destruct s; try discriminate Hm; destruct Ho as (_ & t & Ht);
    exists t; rewrite Ht; split; reflexivity.
Qed.

Lemma ocr_before_model_stages_witness :
  let c := run stack_props never_good (job true None) 5 start in
  ctl c = At ExtractPrescription /\
  ocrTranscription (vars c) = Some "Rx".
Proof.
  intros c.
  assert (Hs : ctl c = At ExtractPrescription) by now vm_compute.
  split; [exact Hs|].
  destruct (ocr_before_model_stages stack_props never_good (job true None)
              5 ExtractPrescription ltac:(discriminate) Hs eq_refl)
    as (t & Ht & Hx).
  fold c in Ht, Hx. rewrite Hx.
  assert (E : Some t = Some "Rx") by (rewrite <- Ht; now vm_compute).
  injection E as ->. reflexivity.
Defined.

(** X6. The judge runs once before any correction and once after each:
    at every point the evaluation stage has been entered at most once
    more than the correction stage, exactly once more when the
    execution is in [Success], and so at most [N + 1] times under a
    limit [N >= 0]. *)
Theorem one_evaluation_per_correction props env input n :
  let c := run props env input n start in
  (invocations EvaluateResponse c <= S (invocations CorrectResponse c))%nat /\
  (ctl c = At Success ->
   invocations EvaluateResponse c = S (invocations CorrectResponse c)) /\
  (0 <= limit props input ->
   Z.of_nat (invocations EvaluateResponse c) <= limit props input + 1).
Proof.
  intros c.
  destruct (reachable_more props env input n) as (_ & _ & Hj & _).
  destruct (reachable_ok props env input n) as (Hc & _).
  fold c in Hj, Hc. unfold judge_ok in Hj. unfold count_ok in Hc.
  destruct (ctl c) as [[]|]; cbn zeta in Hj;
    repeat match goal with
           | H : _ /\ _ |- _ => destruct H
           end;
    (split; [lia|]); (split; [intros; try discriminate; lia|]); lia.
Qed.

Lemma one_evaluation_per_correction_witness :
  let c := run stack_props never_good (job false (Some 2)) 23 start in
  ctl c = At Success /\
  invocations EvaluateResponse c = S (invocations CorrectResponse c) /\
  invocations CorrectResponse c = 2%nat.
Proof.
  intros c.
  assert (Hs : ctl c = At Success) by now vm_compute.
  assert (Hc : invocations CorrectResponse c = 2%nat) by now vm_compute.
  split; [exact Hs|]. split; [|exact Hc].
  exact (proj1 (proj2 (one_evaluation_per_correction stack_props never_good
                         (job false (Some 2)) 23)) Hs).
Defined.

(** X7. Under a limit [N >= 0], a job is completed with a score of
    [POOR] or [FAIR] only when all [N] corrections have been made: the
    [COMPLETED] record of an execution in [Success] carries the last
    score, and if that score is [POOR] or [FAIR] the correction stage
    has been entered exactly [N] times. *)
Theorem low_score_completes_only_at_limit props env input n :
  0 <= limit props input ->
  let c := run props env input n start in
  ctl c = At Success ->
  exists s w rest,
    writes c = w :: rest /\
    Update.status w = COMPLETED /\
    Update.score w = Some s /\
    (Jsonata.in_array s ["POOR"; "FAIR"] = true ->
     Z.of_nat (invocations CorrectResponse c) = limit props input).
Proof.
  intros HN c Hs.
  destruct (reachable_more props env input n) as (_ & _ & _ & Hsc & _).
  destruct (reachable_ok props env input n) as (Hc & _).
  fold c in Hsc, Hc. unfold score_ok in Hsc. unfold count_ok in Hc.
  rewrite Hs in Hsc, Hc.
  destruct Hsc as (s & w & rest & _ & Hlim & Hw & Hst & Hscore & _).
  destruct Hc as (Hm & Hk & Hle & _).
  exists s, w, rest. repeat split; try assumption.
  intros Hin. specialize (Hlim Hin). lia.
Qed.

Lemma low_score_completes_only_at_limit_witness :
  let c := run stack_props never_good (job false (Some 2)) 23 start in
  0 <= limit stack_props (job false (Some 2)) /\
  ctl c = At Success /\
  exists s w rest, writes c = w :: rest /\ Update.score w = Some s.
Proof.
  intros c.
  assert (HN : 0 <= limit stack_props (job false (Some 2))) by now vm_compute.
  assert (Hs : ctl c = At Success) by now vm_compute.
  split; [exact HN|]. split; [exact Hs|].
  destruct (low_score_completes_only_at_limit stack_props never_good
              (job false (Some 2)) 23 HN Hs) as (s & w & rest & Hw & _ & H & _).
  exists s, w, rest. split; [exact Hw | exact H].
Defined.

(** X8. What a successful execution returns is what it wrote: in
    [Success] the outputs (prescription data, score, feedback) are the
    prescription data, score and message of the [COMPLETED] record,
    which is the last record written. *)
Theorem success_outputs_match_record props env input n :
  let c := run props env input n start in
  ctl c = At Success ->
  exists w rest,
    writes c = w :: rest /\
    Update.status w = COMPLETED /\
    outputs (vars c) =
      {| Output.prescriptionData := Update.prescriptionData w;
         Output.score := Update.score w;
         Output.feedback := Update.message_ w |}.
Proof.
  intros c Hs.
  destruct (reachable_more props env input n) as (_ & _ & _ & Hsc & _).
  fold c in Hsc. unfold score_ok in Hsc. rewrite Hs in Hsc.
  destruct Hsc as (s & w & rest & Hv & _ & Hw & Hst & Hscore & Hp & Hm).
  exists w, rest. split; [exact Hw|]. split; [exact Hst|].
  unfold outputs. now rewrite Hscore, Hp, Hm, Hv.
Qed.

Lemma success_outputs_match_record_witness :
  let c := run stack_props never_good (job false (Some 0)) 10 start in
  ctl c = At Success /\
  exists w rest, writes c = w :: rest /\ Update.status w = COMPLETED.
Proof.
  intros c.
  assert (Hs : ctl c = At Success) by now vm_compute.
  split; [exact Hs|].
  destruct (success_outputs_match_record stack_props never_good
              (job false (Some 0)) 10 Hs) as (w & rest & Hw & Hst & _).
  exists w, rest. split; [exact Hw | exact Hst].
Defined.

(** X9. A negative [maxCorrections] behaves like zero: neither the
    correction status update nor the correction stage is ever
    entered. *)
Theorem negative_limit_no_corrections props env input n :
  limit props input < 0 ->
  let c := run props env input n start in
  invocations UpdateStatusCorrect c = 0%nat /\
  invocations CorrectResponse c = 0%nat.
Proof.
  intros HN c.
  destruct (reachable_ok props env input n) as (Hc & _).
  fold c in Hc. unfold count_ok in Hc.
  assert (Hstart : ctl c = At StoreInputs ->
                   invocations UpdateStatusCorrect c = 0%nat /\
                   invocations CorrectResponse c = 0%nat).
  { intros E. rewrite E in Hc. destruct Hc as [He _].
    unfold invocations. rewrite He. now cbv. }
  destruct (ctl c) as [[]|]; try (exact (Hstart eq_refl));
    destruct Hc as (Hm & Hk & Hle & Hu); lia.
Qed.

Lemma negative_limit_no_corrections_witness :
  limit stack_props (job false (Some (-1))) < 0 /\
  invocations CorrectResponse
    (run stack_props never_good (job false (Some (-1))) 10 start) = 0%nat.
Proof.
  assert (HN : limit stack_props (job false (Some (-1))) < 0)
    by now vm_compute.
  split; [exact HN|].
  exact (proj2 (negative_limit_no_corrections stack_props never_good
                  (job false (Some (-1))) 10 HN)).
Defined.






Lemma carried_entries ws x :
  Forall carries ws -> In x (usage_log ws) -> exists u, x = JUsage u.
Proof.
  induction 1 as [|w ws Hw _ IH]; simpl; [contradiction|].
  unfold usage_log in *. simpl. rewrite in_app_iff. intros [Hin|Hin]; auto.
  unfold carries in Hw.
  destruct (Update.status w), (Update.state w) as [[]|];
    repeat match goal with
           | H : _ \/ _ |- _ => destruct H
           | H : exists _, _ |- _ => destruct H
           end;
    match goal with
    | H : Update.usage w = _ |- _ => rewrite H in Hin
    end; simpl in Hin; try contradiction;
    destruct Hin as [<-|[]]; eauto.
Qed.

(** X12. Every [JUDGE], [CORRECT] and [COMPLETED] record carries
    exactly one usage record, a [FAILED] record carries one or none,
    and the [TRANSCRIBE] and [EXTRACT] records have no usage key; no
    record ever carries a [null] usage entry. *)
Theorem usage_carried_by_records props env input n :
  let c := run props env input n start in
  Forall carries (writes c) /\ ~ In JNull (usage_log (writes c)).
Proof.
  intros c.
  destruct (reachable_more props env input n) as (_ & _ & _ & _ & H).
  fold c in H. split; [exact H|].
  intros Hin. destruct (carried_entries _ _ H Hin) as (u & Hu).
  discriminate Hu.
Qed.

(* ================================================================== *)
(** ** Records against stage entries, and the scores written *)
(* ================================================================== *)

Lemma upper_upper_table :
  forallb (fun a =>
    Ascii.eqb (Jsonata.upper_ascii (Jsonata.upper_ascii a))
              (Jsonata.upper_ascii a)) Jsonata.all_ascii = true.
Proof. now vm_compute. Qed.

Lemma uppercase_idempotent s :
  Jsonata.uppercase (Jsonata.uppercase s) = Jsonata.uppercase s.
Proof.
  induction s as [|a s IH]; [reflexivity|]. simpl. rewrite IH. f_equal.
  pose proof upper_upper_table as H. rewrite forallb_forall in H.
  apply Ascii.eqb_eq. apply H. apply in_all_ascii.
Qed.

Section TallyFacts.

Variable props : SmartPrescriptionReaderWorkflowProps.
Variable env : Oracle Payload.t.
Variable input : Input.t.

Local Abbreviation step := (step props env input).
Local Abbreviation run := (run props env input).

Ltac on_state c :=
  destruct c as [k v t ws es ms]; unfold Workflow.step; simpl ctl in *;
  destruct k as [[]|] ; simpl in *.

Ltac on_outcome :=
  match goal with
  | |- context [result (run_task ?e ?r ?t)] =>
      destruct (result (run_task e r t)); simpl in *
  end.

Ltac on_branch :=
  match goal with
  | |- context [if useTextract ?v then _ else _] =>
      destruct (useTextract v) eqn:?; simpl in *
  | |- context [if isPrescription ?v then _ else _] =>
      destruct (isPrescription v) eqn:?; simpl in *
  | |- context [if shouldCorrect ?v then _ else _] =>
      destruct (shouldCorrect v) eqn:?; simpl in *
  end.

Lemma tally_ok_step c : tally_ok c -> tally_ok (step c).
Proof.
  unfold tally_ok, records, invocations.
  on_state c; intros (H1 & H2 & H3 & H4); try on_outcome; try on_branch;
    simpl in *; repeat split; congruence.
Qed.

Lemma scored_ok_step c : score_ok c -> scored_ok c -> scored_ok (step c).
Proof.
  unfold score_ok, scored_ok.
  on_state c; intros Hsc (Hw & Hu & Hc); try on_outcome; try on_branch;
    simpl in *; repeat split; auto;
    try (constructor; auto; unfold scored; simpl; split;
         [auto; discriminate | discriminate]).
  - intros s [= <-]. apply uppercase_idempotent.
  - destruct Hsc as (s & Hs & Hb). exists s. split; [exact Hs|].
    symmetry in Hb. now apply andb_prop in Hb as [Hb _].
  - constructor; auto. unfold scored; simpl. split; [exact Hu|].
    intros _. exact Hc.
Qed.

Lemma reachable_tally n :
  let c := run n start in tally_ok c /\ scored_ok c.
Proof.
  induction n as [|n IH].
  - cbv. repeat split; auto; discriminate.
  - destruct IH as (H1 & H2). rewrite run_S.
    destruct (reachable_more props env input n) as (_ & _ & _ & Hs & _).
    split; [apply tally_ok_step | apply scored_ok_step]; assumption.
Qed.

End TallyFacts.

(** X20. The store holds one status record per entry into a stage: as
    many [TRANSCRIBE] records as entries into the OCR stage, [EXTRACT]
    records as entries into the extraction, [JUDGE] records as
    evaluations and [CORRECT] records as corrections. *)
Theorem one_record_per_stage_entry props env input n :
  let c := run props env input n start in
  records (PROCESSING, Some TRANSCRIBE) c = invocations OcrPrescription c /\
  records (PROCESSING, Some EXTRACT) c = invocations ExtractPrescription c /\
  records (PROCESSING, Some JUDGE) c = invocations EvaluateResponse c /\
  records (PROCESSING, Some CORRECT) c = invocations CorrectResponse c.
Proof.
  intros c. destruct (reachable_tally props env input n) as [H _]. exact H.
Qed.

(** X21. Every score written to the store is in upper case, and every
    [CORRECT] record carries the score that caused the correction,
    [POOR] or [FAIR]. *)
Theorem scores_written props env input n :
  Forall scored (writes (run props env input n start)).
Proof.
  destruct (reachable_tally props env input n) as [_ [H _]]. exact H.
Qed.

(* ================================================================== *)
(** ** More about the getJobStatus resolver *)
(* ================================================================== *)

Lemma strict_neq_true a b : Resolver.strict_neq a b = true <-> a <> b.
Proof.
  unfold Resolver.strict_neq. destruct a as [x|], b as [y|];
    try (split; [discriminate|congruence]); try (split; congruence).
  rewrite negb_true_iff, String.eqb_neq. split; congruence.
Qed.

Lemma strict_neq_false a b : Resolver.strict_neq a b = false <-> a = b.
Proof.
  destruct (Resolver.strict_neq a b) eqn:H.
  - apply strict_neq_true in H. split; [discriminate|contradiction].
  - split; [|reflexivity]. intros _.
    assert (D : {a = b} + {a <> b}) by (repeat decide equality).
    destruct D as [E|E]; [exact E|].
    apply strict_neq_true in E. congruence.
Qed.

(** X13. The resolver returns a record exactly when the lookup found it
    without a data-source error and the caller either does not come
    from a user pool or has a user name equal to the record's owner. *)
Theorem record_returned_iff (ctx : Resolver.Context) j :
  Resolver.response ctx = Resolver.Return j <->
  Resolver.result ctx = Some j /\
  Resolver.error ctx = None /\
  (Resolver.truthy (Resolver.issuer (Resolver.identity ctx)) = false \/
   (Resolver.truthy (Resolver.username (Resolver.identity ctx)) = true /\
    Resolver.owner j = Resolver.username (Resolver.identity ctx))).
Proof.
  unfold Resolver.response.
  destruct (Resolver.truthy (Resolver.issuer _)) eqn:Hi;
    destruct (Resolver.truthy (Resolver.username _)) eqn:Hu;
    cbn [andb negb];
    destruct (Resolver.result ctx) as [r|];
    destruct (Resolver.error ctx) as [e|];
    try destruct (Resolver.strict_neq (Resolver.owner r) _) eqn:Hn;
    split; try discriminate;
    try (intros (H1 & H2 & H3); discriminate);
    try (intros [= ->]; repeat split; auto;
         right; split; auto; now apply strict_neq_false);
    try (intros ([= ->] & _ & [H|[_ H]]); try discriminate;
         try reflexivity;
         apply strict_neq_false in H; congruence).
  intros (_ & _ & [H|[H _]]); discriminate.
Qed.

(** X14. The resolver answers unauthorized exactly to a user-pool
    caller that has no user name, or whose user name differs from the
    owner of the record found; this holds whatever error the data
    source reported, and a caller outside a user pool is never
    refused. *)
Theorem refused_iff (ctx : Resolver.Context) :
  Resolver.response ctx = Resolver.Unauthorized <->
  Resolver.truthy (Resolver.issuer (Resolver.identity ctx)) = true /\
  (Resolver.truthy (Resolver.username (Resolver.identity ctx)) = false \/
   exists j, Resolver.result ctx = Some j /\
             Resolver.owner j <> Resolver.username (Resolver.identity ctx)).
Proof.
  unfold Resolver.response.
  destruct (Resolver.truthy (Resolver.issuer _)) eqn:Hi;
    destruct (Resolver.truthy (Resolver.username _)) eqn:Hu;
    cbn [andb negb];
    destruct (Resolver.result ctx) as [r|];
    destruct (Resolver.error ctx) as [e|];
    try destruct (Resolver.strict_neq (Resolver.owner r) _) eqn:Hn;
    split; try discriminate; auto;
    try (intros [H _]; discriminate);
    try (intros _; split; auto; right; exists r; split; auto;
         now apply strict_neq_true);
    try (intros [_ [H|(j & [= <-] & H)]]; try discriminate;
         apply strict_neq_true in H; congruence);
    try (intros [_ [H|(j & H & _)]]; discriminate).
Qed.

(* ================================================================== *)
(** ** The state log of the demo *)
(* ================================================================== *)

Lemma JobState_eqb_true a b : Hook.JobState_eqb a b = true <-> a = b.
Proof. destruct a, b; cbv; split; congruence. Qed.

Lemma JobState_eqb_refl a : Hook.JobState_eqb a a = true.
Proof. now apply JobState_eqb_true. Qed.

(** The update on a log given by its last entry. *)
Lemma updateStateLog_snoc job st init l :
  Hook.Job.state job = Some st ->
  Hook.updateStateLog job (init ++ [l]) =
  init ++ (if Hook.JobState_eqb st (Hook.Entry.state l)
           then [Hook.newEntry st job]
           else [Hook.close job l; Hook.newEntry st job]).
Proof.
  intros Hs. unfold Hook.updateStateLog. rewrite Hs.
  destruct (init ++ [l]) as [|first rest] eqn:E.
  - now destruct init.
  - rewrite <- E. rewrite last_last, removelast_last.
    cbn [Hook.newEntry Hook.Entry.state].
    now destruct (Hook.JobState_eqb st (Hook.Entry.state l)).
Qed.

Lemma updateStateLog_nil job st :
  Hook.Job.state job = Some st ->
  Hook.updateStateLog job [] = [Hook.newEntry st job].
Proof. intros Hs. unfold Hook.updateStateLog. now rewrite Hs. Qed.

Lemma no_repeat_replace init l e :
  Hook.no_repeat (init ++ [l]) ->
  Hook.Entry.state e = Hook.Entry.state l ->
  Hook.no_repeat (init ++ [e]).
Proof.
  intros H He. induction init as [|x init IH]; [exact I|].
  destruct init as [|y init].
  - simpl in *. now rewrite He.
  - change (Hook.Entry.state x <> Hook.Entry.state y /\
            Hook.no_repeat ((y :: init) ++ [e])).
    destruct H as [Hxy H]. split; [exact Hxy | exact (IH H)].
Qed.

Lemma no_repeat_append init l e :
  Hook.no_repeat (init ++ [l]) ->
  Hook.Entry.state l <> Hook.Entry.state e ->
  Hook.no_repeat (init ++ [l; e]).
Proof.
  intros H He. induction init as [|x init IH]; [simpl; auto|].
  destruct init as [|y init].
  - simpl in *. tauto.
  - change (Hook.Entry.state x <> Hook.Entry.state y /\
            Hook.no_repeat ((y :: init) ++ [l; e])).
    destruct H as [Hxy H]. split; [exact Hxy | exact (IH H)].
Qed.

Lemma updateStateLog_shape job prev :
  Hook.no_repeat prev /\
  Forall (fun e => Hook.Entry.status e = Hook.success) (removelast prev) ->
  Hook.no_repeat (Hook.updateStateLog job prev) /\
  Forall (fun e => Hook.Entry.status e = Hook.success)
         (removelast (Hook.updateStateLog job prev)).
Proof.
  intros [Hn Hf].
  destruct (Hook.Job.state job) as [st|] eqn:Hs;
    [|unfold Hook.updateStateLog; rewrite Hs; now split].
  revert Hn Hf. induction prev as [|l init _] using rev_ind; intros Hn Hf.
  - rewrite (updateStateLog_nil _ _ Hs). split; [exact I|constructor].
  - rewrite (updateStateLog_snoc _ _ _ _ Hs).
    rewrite removelast_last in Hf.
    destruct (Hook.JobState_eqb st (Hook.Entry.state l)) eqn:He.
    + apply JobState_eqb_true in He. split.
      * apply (no_repeat_replace _ l); [exact Hn | exact He].
      * now rewrite removelast_last.
    + assert (Hne : st <> Hook.Entry.state l).
      { intros E. apply JobState_eqb_true in E. congruence. }
      split.
      * apply no_repeat_append.
        -- apply (no_repeat_replace _ l); [exact Hn | reflexivity].
        -- cbn. congruence.
      * change (init ++ [Hook.close job l; Hook.newEntry st job])
          with (init ++ [Hook.close job l] ++ [Hook.newEntry st job]).
        rewrite app_assoc, removelast_last.
        apply Forall_app. split; [exact Hf|]. now constructor.
Qed.

(** X15. Whatever the polls return, the state log never shows the same
    state in two neighbouring entries, and every entry but the last is
    marked as succeeded. *)
Theorem state_log_shape (polls : list Hook.Job.t) :
  Hook.no_repeat (Hook.log_of polls) /\
  Forall (fun e => Hook.Entry.status e = Hook.success)
         (removelast (Hook.log_of polls)).
Proof.
  unfold Hook.log_of.
  assert (G : forall l,
    Hook.no_repeat l /\
    Forall (fun e => Hook.Entry.status e = Hook.success) (removelast l) ->
    Hook.no_repeat (fold_left (fun l j => Hook.updateStateLog j l) polls l) /\
    Forall (fun e => Hook.Entry.status e = Hook.success)
      (removelast (fold_left (fun l j => Hook.updateStateLog j l) polls l))).
  { induction polls as [|j polls IH]; intros l H; [exact H|].
    simpl. apply IH. now apply updateStateLog_shape. }
  apply G. split; [exact I|constructor].
Qed.

(** X16. A poll that reports a state leaves that state's entry at the
    end of the log and touches nothing before the previous last entry:
    the log keeps its length or grows by one. A poll that reports no
    state leaves the log as it is. *)
Theorem state_log_update job prev :
  (Hook.Job.state job = None -> Hook.updateStateLog job prev = prev) /\
  (forall st, Hook.Job.state job = Some st ->
     exists init,
       Hook.updateStateLog job prev = init ++ [Hook.newEntry st job] /\
       firstn (List.length prev - 1) init = removelast prev /\
       (List.length prev <= S (List.length init) <= S (List.length prev))%nat).
Proof.
  split.
  - intros Hs. unfold Hook.updateStateLog. now rewrite Hs.
  - intros st Hs. induction prev as [|l init _] using rev_ind.
    + exists []. rewrite (updateStateLog_nil _ _ Hs). cbn. auto.
    + rewrite (updateStateLog_snoc _ _ _ _ Hs), removelast_last.
      rewrite length_app. cbn [List.length].
      replace (List.length init + 1 - 1)%nat with (List.length init) by lia.
      destruct (Hook.JobState_eqb st (Hook.Entry.state l)).
      * exists init. split; [reflexivity|]. split; [apply firstn_all|lia].
      * exists (init ++ [Hook.close job l]). split.
        -- now rewrite <- app_assoc.
        -- split.
           ++ rewrite firstn_app, firstn_all, Nat.sub_diag. cbn.
              now rewrite app_nil_r.
           ++ rewrite length_app. cbn. lia.
Qed.

Lemma state_log_update_witness :
  Hook.Job.state Hook.correcting = Some CORRECT /\
  exists init,
    Hook.updateStateLog Hook.correcting (Hook.log_of [Hook.judging])
      = init ++ [Hook.newEntry CORRECT Hook.correcting].
Proof.
  split; [reflexivity|].
  destruct (proj2 (state_log_update Hook.correcting
                     (Hook.log_of [Hook.judging])) CORRECT eq_refl)
    as (init & H & _).
  exists init. exact H.
Defined.

(** X17. Polling the same job record twice changes the log no more than
    polling it once. *)
Theorem state_log_update_idempotent job prev :
  Hook.updateStateLog job (Hook.updateStateLog job prev) =
  Hook.updateStateLog job prev.
Proof.
  destruct (Hook.Job.state job) as [st|] eqn:Hs;
    [|unfold Hook.updateStateLog; now rewrite Hs].
  assert (G : forall init,
    Hook.updateStateLog job (init ++ [Hook.newEntry st job]) =
    init ++ [Hook.newEntry st job]).
  { intros init. rewrite (updateStateLog_snoc _ _ _ _ Hs).
    cbn [Hook.newEntry Hook.Entry.state]. now rewrite JobState_eqb_refl. }
  induction prev as [|l init _] using rev_ind.
  - rewrite (updateStateLog_nil _ _ Hs). exact (G []).
  - rewrite (updateStateLog_snoc _ _ _ _ Hs).
    destruct (Hook.JobState_eqb st (Hook.Entry.state l)).
    + apply G.
    + change (init ++ [Hook.close job l; Hook.newEntry st job])
        with (init ++ [Hook.close job l] ++ [Hook.newEntry st job]).
      rewrite app_assoc. apply G.
Qed.


(* ================================================================== *)
(** ** Flash messages *)
(* ================================================================== *)



